(** * The content build pipeline of [cmd/site]

    A shallow embedding of [Build] (cmd/site/main.go) together with the
    library routines it runs on: Go's [sort.Sort] driven through the
    [sort.Interface] methods of [Posts], [time.Parse] for the layout
    ["2006-01-02"], [strings.Split], and [front.Unmarshal].

    Go's [int] is modelled by [Z]: every index handled below is bounded by
    the length of an in-memory slice, so no 64-bit operation wraps. *)

From Stdlib Require Import ZArith Lia Permutation Ascii String.
From stdpp Require Import base list strings gmap.

Local Open Scope Z_scope.

(** ** Slices indexed by Go [int]s *)

(** [p[i]]: [None] stands for the run-time panic "index out of range". *)
Definition get {T : Type} (d : list T) (i : Z) : option T :=
  if i <? 0 then None else d !! Z.to_nat i.

(** [p[i] = x] for an index already known to be in range. *)
Definition set {T : Type} (d : list T) (i : Z) (x : T) : list T :=
  <[Z.to_nat i := x]> d.

(** ** Package [sort]

    The quicksort that [sort.Sort] ran from go1.6 to go1.18, the releases
    of the time of this code (it reads files with [io/ioutil]). *)

(** [sort.Interface]: the three methods, over the collection [D].  [Less]
    and [Swap] index the collection and so may panic. *)
Record Interface (D : Type) : Type := {
  Len : D → Z;
  Less : D → Z → Z → option bool;
  Swap : D → Z → Z → option D;
}.
Arguments Len {D} _ _.
Arguments Less {D} _ _ _ _.
Arguments Swap {D} _ _ _ _.

(** [sort.Reverse]: the same collection with [Less(i, j)] answered by the
    wrapped [Less(j, i)]. *)
Definition sort_Reverse {D : Type} (data : Interface D) : Interface D :=
  {| Len := Len data;
     Less := λ d i j, Less data d j i;
     Swap := Swap data |}.

(** Statements of package sort run on the collection in place: a
    computation reads and updates the collection and may panic. *)
Definition M (D A : Type) : Type := D → option (A * D).

Global Instance M_ret {D} : MRet (M D) := λ A a d, Some (a, d).
Global Instance M_bind {D} : MBind (M D) := λ A B k m d,
  match m d with
  | Some (a, d') => k a d'
  | None => None
  end.

Section sort.
Context {D : Type} (data : Interface D).

Definition less (i j : Z) : M D bool :=
  λ d, match Less data d i j with Some b => Some (b, d) | None => None end.

Definition swap (i j : Z) : M D unit :=
  λ d, match Swap data d i j with Some d' => Some ((), d') | None => None end.

(** A [for] statement: [body] answers [inl s'] to go round again with the
    loop variables [s'] and [inr r] to leave the loop with [r].  The loop
    gives up ([None]) when [fuel] rounds were not enough; every caller
    passes a bound that the loop provably never reaches. *)
Fixpoint loop {St R : Type} (fuel : nat) (body : St → M D (St + R)) (s : St)
    : M D R :=
  match fuel with
  | O => λ _, None
  | S fuel =>
      r ← body s;
      match r with
      | inl s' => loop fuel body s'
      | inr r => mret r
      end
  end.

(** [for i := a + 1; i < b; i++ {
      for j := i; j > a && data.Less(j, j-1); j-- { data.Swap(j, j-1) } }] *)
Definition insertionSort (a b : Z) : M D unit :=
  loop (Z.to_nat (b - a) + 1) (λ i,
    if i <? b then
      loop (Z.to_nat (i - a) + 1) (λ j,
        if a <? j then
          lt ← less j (j - 1);
          if lt : bool then swap j (j - 1);; mret (inl (j - 1))
          else mret (inr ())
        else mret (inr ())) i;;
      mret (inl (i + 1))
    else mret (inr ())) (a + 1).

(** [siftDown] implements the heap property on [data[lo, hi)]; [first] is
    the offset of the root of the heap. *)
Definition siftDown (lo hi first : Z) : M D unit :=
  loop (Z.to_nat (hi - lo) + 1) (λ root,
    let child := 2 * root + 1 in
    if hi <=? child then mret (inr ())
    else
      lt ← (if child + 1 <? hi
            then less (first + child) (first + child + 1)
            else mret false);
      let child := if lt : bool then child + 1 else child in
      lt ← less (first + root) (first + child);
      if negb lt then mret (inr ())
      else swap (first + root) (first + child);; mret (inl child)) lo.

Definition heapSort (a b : Z) : M D unit :=
  let first := a in
  let lo := 0 in
  let hi := b - a in
  (* Build heap with greatest element at top. *)
  loop (Z.to_nat hi + 2) (λ i,
    if 0 <=? i then siftDown i hi first;; mret (inl (i - 1))
    else mret (inr ())) ((hi - 1) `quot` 2);;
  (* Pop elements, largest first, into end of data. *)
  loop (Z.to_nat hi + 2) (λ i,
    if 0 <=? i then
      swap first (first + i);; siftDown lo i first;; mret (inl (i - 1))
    else mret (inr ())) (hi - 1).

(** [medianOfThree] moves the median of the three values [data[m0]],
    [data[m1]], [data[m2]] into [data[m1]]. *)
Definition medianOfThree (m1 m0 m2 : Z) : M D unit :=
  lt ← less m1 m0;
  (if lt : bool then swap m1 m0 else mret ());;
  lt ← less m2 m1;
  if lt : bool then
    swap m2 m1;;
    lt ← less m1 m0;
    if lt : bool then swap m1 m0 else mret ()
  else mret ().

Definition doPivot (lo hi : Z) : M D (Z * Z) :=
  let fuel := (Z.to_nat (hi - lo) + 1)%nat in
  let m := Z.shiftr (lo + hi) 1 in
  (if 40 <? hi - lo then
     (* Tukey's ninther, median of three medians of three. *)
     let s := (hi - lo) `quot` 8 in
     medianOfThree lo (lo + s) (lo + 2 * s);;
     medianOfThree m (m - s) (m + s);;
     medianOfThree (hi - 1) (hi - 1 - s) (hi - 1 - 2 * s)
   else mret ());;
  medianOfThree lo m (hi - 1);;
  let pivot := lo in
  let a := lo + 1 in
  let c := hi - 1 in
  (* for ; a < c && data.Less(a, pivot); a++ {} *)
  a ← loop fuel (λ a,
    if a <? c then
      lt ← less a pivot;
      if lt : bool then mret (inl (a + 1)) else mret (inr a)
    else mret (inr a)) a;
  let b := a in
  '(b, c) ← loop fuel (λ '(b, c),
    (* for ; b < c && !data.Less(pivot, b); b++ {} *)
    b ← loop fuel (λ b,
      if b <? c then
        lt ← less pivot b;
        if negb lt then mret (inl (b + 1)) else mret (inr b)
      else mret (inr b)) b;
    (* for ; b < c && data.Less(pivot, c-1); c-- {} *)
    c ← loop fuel (λ c,
      if b <? c then
        lt ← less pivot (c - 1);
        if lt : bool then mret (inl (c - 1)) else mret (inr c)
      else mret (inr c)) c;
    if c <=? b then mret (inr (b, c))
    else swap b (c - 1);; mret (inl (b + 1, c - 1))) (b, c);
  (* If hi-c<3 then there are duplicates (by property of median of nine).
     Let's be a bit more conservative, and set border to 5. *)
  let protect := hi - c <? 5 in
  '(b, c, protect) ←
    (if negb protect && (hi - c <? (hi - lo) `quot` 4) then
       (* Lets test some points for equality to pivot *)
       let dups := 0 in
       lt ← less pivot (hi - 1);
       '(c, dups) ← (if negb lt
                     then swap c (hi - 1);; mret (c + 1, dups + 1)
                     else mret (c, dups));
       lt ← less (b - 1) pivot;
       let '(b, dups) := if negb lt then (b - 1, dups + 1) else (b, dups) in
       lt ← less m pivot;
       '(b, dups) ← (if negb lt
                     then swap m (b - 1);; mret (b - 1, dups + 1)
                     else mret (b, dups));
       (* if at least 2 points are equal to pivot, assume skewed
          distribution *)
       mret (b, c, 1 <? dups)
     else mret (b, c, protect));
  b ← (if protect : bool then
         (* Protect against a lot of duplicates *)
         '(_, b) ← loop fuel (λ '(a, b),
           (* for ; a < b && !data.Less(b-1, pivot); b-- {} *)
           b ← loop fuel (λ b,
             if a <? b then
               lt ← less (b - 1) pivot;
               if negb lt then mret (inl (b - 1)) else mret (inr b)
             else mret (inr b)) b;
           (* for ; a < b && data.Less(a, pivot); a++ {} *)
           a ← loop fuel (λ a,
             if a <? b then
               lt ← less a pivot;
               if lt : bool then mret (inl (a + 1)) else mret (inr a)
             else mret (inr a)) a;
           if b <=? a then mret (inr (a, b))
           else swap a (b - 1);; mret (inl (a + 1, b - 1))) (a, b);
         mret b
       else mret b);
  (* Swap pivot into middle *)
  swap pivot (b - 1);;
  mret (b - 1, c).

(** [quickSort]: the statement [for b-a > 12 { ... a = mhi }] goes round
    again on the larger part; that round is written here as a call on
    that part, which runs the same statements. *)
Fixpoint quickSort (fuel : nat) (a b maxDepth : Z) : M D unit :=
  match fuel with
  | O => λ _, None
  | S fuel =>
      if 12 <? b - a then
        if maxDepth =? 0 then heapSort a b
        else
          let maxDepth := maxDepth - 1 in
          '(mlo, mhi) ← doPivot a b;
          (* Avoiding recursion on the larger subproblem guarantees a
             stack depth of at most lg(b-a). *)
          if mlo - a <? b - mhi then
            quickSort fuel a mlo maxDepth;;
            quickSort fuel mhi b maxDepth
          else
            quickSort fuel mhi b maxDepth;;
            quickSort fuel a mlo maxDepth
      else if 1 <? b - a then
        (* Do ShellSort pass with gap 6 *)
        loop 7 (λ i,
          if i <? b then
            lt ← less i (i - 6);
            (if lt : bool then swap i (i - 6) else mret ());;
            mret (inl (i + 1))
          else mret (inr ())) (a + 6);;
        insertionSort a b
      else mret ()
  end.

(** [maxDepth] returns a threshold at which quicksort should switch to
    heapsort: [2*ceil(lg(n+1))].  An [int] has at most 63 value bits. *)
Fixpoint maxDepth_loop (fuel : nat) (i depth : Z) : Z :=
  match fuel with
  | O => depth
  | S fuel => if 0 <? i then maxDepth_loop fuel (Z.shiftr i 1) (depth + 1)
              else depth
  end.

Definition maxDepth (n : Z) : Z := maxDepth_loop 64 n 0 * 2.

(** [sort.Sort]: [None] is a panic raised by [Less] or [Swap]. *)
Definition sort_Sort (d : D) : option D :=
  let n := Len data d in
  match quickSort (Z.to_nat n + 1) 0 n (maxDepth n) d with
  | Some (_, d') => Some d'
  | None => None
  end.
End sort.

(** ** Errors and panics *)

Definition error : Type := string.

(** What a Go call comes to: it returns, returns a non-nil [error], or
    panics. *)
Inductive result (A : Type) : Type :=
  | Ok (a : A)
  | Err (e : error)
  | Panic (msg : string).
Arguments Ok {A} _.
Arguments Err {A} _.
Arguments Panic {A} _.

Global Instance result_ret : MRet result := λ A a, Ok a.
Global Instance result_bind : MBind result := λ A B k m,
  match m with
  | Ok a => k a
  | Err e => Err e
  | Panic msg => Panic msg
  end.

(** ** Package [time], as far as [time.Parse("2006-01-02", _)] and
    [Time.Unix] go *)

(** A [Time] in UTC without monotonic reading: the seconds since
    January 1, year 1 00:00:00 UTC. *)
Record Time : Type := { sec : Z }.

(** The zero [Time], [Time{}]. *)
Definition Time_zero : Time := {| sec := 0 |}.

Definition secondsPerDay : Z := 86400.
Definition unixToInternal : Z :=
  (1969 * 365 + 1969 `quot` 4 - 1969 `quot` 100 + 1969 `quot` 400)
  * secondsPerDay.
Definition internalToUnix : Z := - unixToInternal.

(** [Time.Unix]. *)
Definition Unix (t : Time) : Z := sec t + internalToUnix.

Definition isLeap (year : Z) : bool :=
  (year `rem` 4 =? 0) && (negb (year `rem` 100 =? 0) || (year `rem` 400 =? 0)).

(** [daysBefore[m]] counts the number of days in a non-leap year before
    month [m] begins. *)
Definition daysBefore : list Z :=
  [0; 31; 59; 90; 120; 151; 181; 212; 243; 273; 304; 334; 365].

Definition daysIn (m year : Z) : Z :=
  if (m =? 2) && isLeap year then 29
  else default 0 (get daysBefore m) - default 0 (get daysBefore (m - 1)).

Definition daysPer400Years : Z := 365 * 400 + 97.
Definition daysPer100Years : Z := 365 * 100 + 24.
Definition daysPer4Years : Z := 365 * 4 + 1.

(** [time.Date(year, month, day, 0, 0, 0, 0, UTC)] for a month in 1..12:
    the days in 400-, 100-, 4- and 1-year cycles, then the days before the
    month and before the day.  Go counts the cycles from a year that lies a
    multiple of 400 years before year 1 and subtracts the difference again;
    the years are counted from year 1 here. *)
Definition time_Date (year month day : Z) : Time :=
  let y := year - 1 in
  let n := y `div` 400 in
  let y := y - 400 * n in
  let d := daysPer400Years * n in
  let n := y `div` 100 in
  let y := y - 100 * n in
  let d := d + daysPer100Years * n in
  let n := y `div` 4 in
  let y := y - 4 * n in
  let d := d + daysPer4Years * n in
  let n := y in
  let d := d + 365 * n in
  let d := d + default 0 (get daysBefore (month - 1)) in
  let d := if isLeap year && (3 <=? month) then d + 1 else d in
  let d := d + (day - 1) in
  {| sec := d * secondsPerDay |}.

Definition isDigit (c : ascii) : bool :=
  let n := nat_of_ascii c in (48 <=? n)%nat && (n <=? 57)%nat.

Definition digitVal (c : ascii) : Z := Z.of_nat (nat_of_ascii c) - 48.

(** [getnum] parses [s[0:1]] or [s[0:2]] (fixed forces the latter) as a
    decimal integer and returns the integer and the remainder of the
    string. *)
Definition getnum (s : string) (fixed : bool) : option (Z * string) :=
  match s with
  | String c0 rest =>
      if isDigit c0 then
        match rest with
        | String c1 rest' =>
            if isDigit c1 then Some (digitVal c0 * 10 + digitVal c1, rest')
            else if fixed then None else Some (digitVal c0, rest)
        | EmptyString => if fixed then None else Some (digitVal c0, rest)
        end
      else None
  | EmptyString => None
  end.

(** The chunk [2006] of a layout: four characters, all of them digits. *)
Definition getLongYear (value : string) : option (Z * string) :=
  match value with
  | String a (String b (String c (String d rest))) =>
      if isDigit a && isDigit b && isDigit c && isDigit d
      then Some (((digitVal a * 10 + digitVal b) * 10 + digitVal c) * 10
                 + digitVal d, rest)
      else None
  | _ => None
  end.

(** [skip] for the literal text ["-"] of the layout. *)
Definition skipDash (value : string) : option string :=
  match value with
  | String "-" rest => Some rest
  | _ => None
  end.

Definition parseDate (value : string) : option Time :=
  '(year, value) ← getLongYear value;
  value ← skipDash value;
  '(month, value) ← getnum value true;
  if (month <=? 0) || (12 <? month) then None (* month out of range *)
  else
    value ← skipDash value;
    '(day, value) ← getnum value true;
    if negb (String.eqb value EmptyString) then None (* extra text *)
    else if (day <? 1) || (daysIn month year <? day) then None
                                 (* day out of range *)
    else Some (time_Date year month day).

(** [time.Parse("2006-01-02", value)]: on an error the [Time] returned is
    the zero [Time]. *)
Definition time_Parse (value : string) : Time * option error :=
  match parseDate value with
  | Some t => (t, None)
  | None => (Time_zero, Some "parsing time: cannot parse"%string)
  end.

(** ** Packages [strings] and [bytes] *)

Fixpoint hasPrefix (s prefix : string) {struct prefix} : bool :=
  match prefix, s with
  | EmptyString, _ => true
  | String c prefix', String c' s' => Ascii.eqb c c' && hasPrefix s' prefix'
  | String _ _, EmptyString => false
  end.

Fixpoint dropn (n : nat) (s : string) : string :=
  match n, s with
  | O, _ => s
  | S n', String _ s' => dropn n' s'
  | S _, EmptyString => EmptyString
  end.

(** The text before and after the first instance of [sep] in [s]. *)
Fixpoint cut (s sep : string) : option (string * string) :=
  if hasPrefix s sep then Some (EmptyString, dropn (String.length sep) s)
  else
    match s with
    | String c s' =>
        match cut s' sep with
        | Some (before, after) => Some (String c before, after)
        | None => None
        end
    | EmptyString => None
    end.

(** [genSplit] for a separator that is not empty: at most [n] parts, the
    last of them the unsplit remainder. *)
Fixpoint genSplit (n : nat) (s sep : string) : list string :=
  match n with
  | O => []
  | S O => [s]
  | S n' =>
      match cut s sep with
      | Some (before, after) => before :: genSplit n' after sep
      | None => [s]
      end
  end.

Definition explode (s : string) : list string :=
  (λ c, String c EmptyString) <$> list_ascii_of_string s.

(** [strings.Split(s, sep)]: all the parts; there are at most
    [len(s) + 1] of them. *)
Definition strings_Split (s sep : string) : list string :=
  if String.eqb sep EmptyString then explode s
  else genSplit (String.length s + 1) s sep.

(** [bytes.SplitN(s, sep, n)] for [n > 0] and a separator that is not
    empty. *)
Definition bytes_SplitN (s sep : string) (n : nat) : list string :=
  genSplit n s sep.

(** ** Package [front] (github.com/tj/front) *)

(** The struct that [Build] decodes a header into. *)
Record postFM : Type := {
  fm_Title : string;
  fm_Date : string;
}.

Definition delim : string := "---".

(** ** The data of [Build] *)

(** [Post] is a single blogpost. *)
Record Post : Type := {
  Title : string;
  Link : string;
  Summary : string;
  Body : string;
  BodyHTML : string;
  Date : string;
}.

(** [Posts] implements [sort.Interface] for a slice of [Post] objects. *)
Abbreviation Posts := (list Post).

Definition Posts_Len (p : Posts) : Z := Z.of_nat (length p).

Definition Posts_Less (p : Posts) (i j : Z) : option bool :=
  pi ← get p i;
  let iDate := (time_Parse (Date pi)).1 in
  pj ← get p j;
  let jDate := (time_Parse (Date pj)).1 in
  Some (Unix iDate <? Unix jDate).

Definition Posts_Swap (p : Posts) (i j : Z) : option Posts :=
  pi ← get p i;
  pj ← get p j;
  Some (set (set p i pj) j pi).

Definition Posts_Interface : Interface Posts :=
  {| Len := Posts_Len; Less := Posts_Less; Swap := Posts_Swap |}.

(** [feeds.Feed] and [feeds.Item] (github.com/gorilla/feeds): the fields
    that [Build] sets, and the [Id] of an item, which the feed writers
    make the GUID of an RSS entry and the id of an Atom entry. *)
Record feeds_Item : Type := {
  Item_Title : string;
  Item_Link_Href : string;
  Item_Description : string;
  Item_Id : string;
  Item_Created : Time;
}.

Record feeds_Feed : Type := {
  Feed_Title : string;
  Feed_Link_Href : string;
  Feed_Description : string;
  Feed_Author_Name : string;
  Feed_Author_Email : string;
  Feed_Created : Time;
  Feed_Copyright : string;
  Feed_Items : list feeds_Item;
}.

(** [jsonfeed.Feed] and [jsonfeed.Item] (github.com/Xe/jsonfeed). *)
Record jsonfeed_Item : Type := {
  JItem_ID : string;
  JItem_URL : string;
  JItem_Title : string;
  JItem_DatePublished : Time;
  JItem_ContentHTML : string;
}.

Record jsonfeed_Feed : Type := {
  JFeed_Version : string;
  JFeed_Title : string;
  JFeed_HomePageURL : string;
  JFeed_FeedURL : string;
  JFeed_Description : string;
  JFeed_UserComment : string;
  JFeed_Icon : string;
  JFeed_Favicon : string;
  JFeed_Author_Name : string;
  JFeed_Author_Avatar : string;
  JFeed_Items : list jsonfeed_Item;
}.

Definition jsonfeed_CurrentVersion : string := "https://jsonfeed.org/version/1".

Definition icon : string := "https://christine.website/static/img/avatar.png".

(** Modelled from the spec: the type [locale], whose file is not among the
    sources.  The Locale Store maps a language code to a mapping of
    (namespace, key) to a localized string. *)
Abbreviation locale := (gmap string (gmap string string)).

(** Modelled from the spec: the method [locale.Value], whose file is not
    among the sources.  [Value(namespace, key)] gives the localized string,
    and a required key that is missing is fatal to the build, not
    defaulted.  At its call sites in [Build] the method returns one string
    and no error, so the only way it has to be fatal is a panic. *)
Definition locale_Value (l : locale) (group key : string) : result string :=
  match l !! group ≫= (.!! key) with
  | Some v => Ok v
  | None => Panic ("locale: no value for " +:+ group +:+ "." +:+ key)
  end.

(** [translations]: the locales by language code. *)
Record translations : Type := { locales : gmap string locale }.

(** [Site] is the parent object of the backend.  The request multiplexer
    and the analytics client are left out: they take no part in what
    [Build] computes from the content. *)
Record Site : Type := {
  Site_Posts : Posts;
  Resume : string;
  rssFeed : feeds_Feed;
  jsonFeed : jsonfeed_Feed;
  Site_t : translations;
}.

(** ** The files that [Build] reads *)

(** [os.Open(path)] followed by [ioutil.ReadAll]. *)
Inductive file_io : Type :=
  | OpenFails (e : error)
  | ReadFails (e : error)
  | Contents (content : string).

(** One call of the function given to [filepath.Walk]: the walk reports an
    error for the path, or the path is a directory, or it is a file. *)
Inductive walk_entry : Type :=
  | WalkErr (path : string) (err : error)
  | Dir (path : string)
  | File (path : string) (io : file_io).

(** A locale file that [os.Open] has opened, as [translations.LoadLocale]
    sees it: loading it fails, or gives a locale. *)
Inductive locale_reader : Type :=
  | LoadFails (e : error)
  | Loads (l : locale).

Record World : Type := {
  (** [os.Open] of a locale file, by path *)
  locale_file : string → error + locale_reader;
  (** the calls that [filepath.Walk("./blog/", _)] makes, in its (lexical)
      order; the paths are joined and cleaned by the walk, as in
      [blog/post.markdown] *)
  blog_walk : list walk_entry;
  (** [ioutil.ReadFile("./static/resume/resume.md")] *)
  resume_file : error + string;
  (** the package variable [bootTime] *)
  bootTime : Time;
  (** [os.Getenv("PORT")] *)
  env_PORT : string;
}.

Definition filepath_Join (dir name : string) : string := dir +:+ "/" +:+ name.

(** The [&feeds.Item{...}] that [Build] appends for [item]; the literal
    sets no [Id], which is left the empty string. *)
Definition feeds_Item_of (item : Post) : feeds_Item :=
  let itime := (time_Parse (Date item)).1 in
  {| Item_Title := Title item;
     Item_Link_Href := "https://christine.website/" +:+ Link item;
     Item_Description := Summary item;
     Item_Id := EmptyString;
     Item_Created := itime |}.

(** The [jsonfeed.Item{...}] that [Build] appends for [item]. *)
Definition jsonfeed_Item_of (item : Post) : jsonfeed_Item :=
  let itime := (time_Parse (Date item)).1 in
  {| JItem_ID := "https://christine.website/" +:+ Link item;
     JItem_URL := "https://christine.website/" +:+ Link item;
     JItem_Title := Title item;
     JItem_DatePublished := itime;
     JItem_ContentHTML := BodyHTML item |}.

Section Build.
(** [yaml.Unmarshal(in, &fm)]: the header decoded into [fm], and the
    error.  A key that the header does not have leaves its field as it
    was. *)
Variable yaml_Unmarshal : string → postFM → postFM * option error.

(** [blackfriday.Run]: markdown to HTML. *)
Variable blackfriday_Run : string → string.

(** [front.Unmarshal] parses YAML frontmatter and returns the content.
    When no frontmatter delimiters are present the original content is
    returned. *)
Definition front_Unmarshal (b : string) (v : postFM)
    : result (string * option error * postFM) :=
  if negb (hasPrefix b delim) then Ok (b, None, v)
  else
    let parts := bytes_SplitN b delim 3 in
    match parts !! 2%nat with
    | None => Panic "index out of range"
    | Some content =>
        match parts !! 1%nat with
        | None => Panic "index out of range"
        | Some header =>
            let '(v, err) := yaml_Unmarshal header v in
            Ok (content, err, v)
        end
    end.

(** The function literal that [Build] walks ["./blog/"] with; [posts] is
    [s.Posts]. *)
Definition walkFn (posts : Posts) (e : walk_entry) : result Posts :=
  match e with
  | WalkErr _ err => Err err
  | Dir _ => Ok posts
  | File path io =>
      match io with
      | OpenFails err => Err err
      | ReadFails err => Err err
      | Contents content =>
          let fm := {| fm_Title := EmptyString; fm_Date := EmptyString |} in
          '(remaining, err, fm) ← front_Unmarshal content fm;
          match err with
          | Some err => Err err
          | None =>
              let output := blackfriday_Run remaining in
              link ← match strings_Split path "." !! 0%nat with
                     | Some part => Ok part
                     | None => Panic "index out of range"
                     end;
              let p := {| Title := fm_Title fm;
                          Date := fm_Date fm;
                          Link := link;
                          Body := remaining;
                          BodyHTML := output;
                          Summary := EmptyString |} in
              Ok (posts ++ [p])
          end
      end
  end.

(** [filepath.Walk]: the function is called for every entry in turn; the
    first error it returns ends the walk and is returned. *)
Fixpoint filepath_Walk (entries : list walk_entry) (posts : Posts)
    : result Posts :=
  match entries with
  | [] => Ok posts
  | e :: entries => posts ← walkFn posts e; filepath_Walk entries posts
  end.

(** Modelled from the spec: [translations.LoadLocale], whose file is not
    among the sources.  The store is loaded once at boot: a locale that
    loads is kept under its language code. *)
Definition LoadLocale (t : translations) (lang : string)
    (fin : locale_reader) : result translations :=
  match fin with
  | LoadFails err => Err err
  | Loads l => Ok {| locales := <[lang := l]> (locales t) |}
  end.

(** [for _, item := range s.Posts]: one item is appended to each of the
    two feeds. *)
Definition addItem (fs : feeds_Feed * jsonfeed_Feed) (item : Post)
    : feeds_Feed * jsonfeed_Feed :=
  let '(rss, json) := fs in
  ({| Feed_Title := Feed_Title rss;
      Feed_Link_Href := Feed_Link_Href rss;
      Feed_Description := Feed_Description rss;
      Feed_Author_Name := Feed_Author_Name rss;
      Feed_Author_Email := Feed_Author_Email rss;
      Feed_Created := Feed_Created rss;
      Feed_Copyright := Feed_Copyright rss;
      Feed_Items := Feed_Items rss ++ [feeds_Item_of item] |},
   {| JFeed_Version := JFeed_Version json;
      JFeed_Title := JFeed_Title json;
      JFeed_HomePageURL := JFeed_HomePageURL json;
      JFeed_FeedURL := JFeed_FeedURL json;
      JFeed_Description := JFeed_Description json;
      JFeed_UserComment := JFeed_UserComment json;
      JFeed_Icon := JFeed_Icon json;
      JFeed_Favicon := JFeed_Favicon json;
      JFeed_Author_Name := JFeed_Author_Name json;
      JFeed_Author_Avatar := JFeed_Author_Avatar json;
      JFeed_Items := JFeed_Items json ++ [jsonfeed_Item_of item] |}).

(** [Build] creates a new [Site] instance or fails. *)
Definition Build (w : World) : result Site :=
  let t := {| locales := ∅ |} in
  t ← foldl (λ r lang,
         t ← r;
         fin ← match locale_file w
                       (filepath_Join "locales" (lang +:+ ".json")) with
               | inl err => Err err
               | inr fin => Ok fin
               end;
         LoadLocale t lang fin) (Ok t) ["en"; "tp"];
  let l := default ∅ (locales t !! "en") in
  rss_title ← locale_Value l "blog" "title";
  rss_description ← locale_Value l "blog" "description";
  rss_copyright ← locale_Value l "meta" "rss_copyright";
  let rss := {| Feed_Title := rss_title;
                Feed_Link_Href := "https://christine.website/blog";
                Feed_Description := rss_description;
                Feed_Author_Name := "Christine Dodrill";
                Feed_Author_Email := "me@christine.website";
                Feed_Created := bootTime w;
                Feed_Copyright := rss_copyright;
                Feed_Items := [] |} in
  json_title ← locale_Value l "blog" "title";
  json_description ← locale_Value l "blog" "description";
  json_comment ← locale_Value l "meta" "json_feed";
  json_author ← locale_Value l "header" "name";
  let json := {| JFeed_Version := jsonfeed_CurrentVersion;
                 JFeed_Title := json_title;
                 JFeed_HomePageURL := "https://christine.website";
                 JFeed_FeedURL := "https://christine.website/blog.json";
                 JFeed_Description := json_description;
                 JFeed_UserComment := json_comment;
                 JFeed_Icon := icon;
                 JFeed_Favicon := icon;
                 JFeed_Author_Name := json_author;
                 JFeed_Author_Avatar := icon;
                 JFeed_Items := [] |} in
  posts ← filepath_Walk (blog_walk w) [];
  posts ← match sort_Sort (sort_Reverse Posts_Interface) posts with
          | Some posts => Ok posts
          | None => Panic "index out of range"
          end;
  resumeData ← match resume_file w with
               | inl err => Err err
               | inr content => Ok content
               end;
  let resume := blackfriday_Run resumeData in
  let '(rss, json) := foldl addItem (rss, json) posts in
  Ok {| Site_Posts := posts;
        Resume := resume;
        rssFeed := rss;
        jsonFeed := json;
        Site_t := t |}.

(** What the process comes to: it serves the site, or it logs the error
    of [Build] and exits, or it dies of a panic. *)
Inductive process : Type :=
  | ListenAndServe (addr : string) (s : Site)
  | FatalErr (err : error)
  | Crash (msg : string).

Definition main (w : World) : process :=
  let port := if String.eqb (env_PORT w) EmptyString then "29384"%string
              else env_PORT w in
  match Build w with
  | Ok s => ListenAndServe (":" +:+ port) s
  | Err err => FatalErr err
  | Panic msg => Crash msg
  end.

(** The header of a file is not accepted: a panic on a missing closing
    delimiter, or an error of the decoder. *)
Definition header_rejected (content : string) : Prop :=
  match front_Unmarshal content
          {| fm_Title := EmptyString; fm_Date := EmptyString |} with
  | Ok (_, None, _) => False
  | _ => True
  end.
End Build.

Definition serves (p : process) : Prop :=
  match p with ListenAndServe _ _ => True | _ => False end.

(** ** A header decoder and a renderer to run examples on *)

Definition newline : string := String (ascii_of_nat 10) EmptyString.

Definition dquote : ascii := ascii_of_nat 34.

Definition squote : ascii := ascii_of_nat 39.

(** The value of a [key: value] line.  A text in quotes is the text
    between them; a quote that is not closed at the end of the line is an
    error of the scanner, and so is another [": "] in a plain value.  An
    error carries the message of the scanner, without the prefix and the
    line number that the library puts before it. *)
Definition yaml_scalar (value : string) : string + error :=
  match value with
  | String c rest =>
      if Ascii.eqb c dquote || Ascii.eqb c squote then
        match cut rest (String c EmptyString) with
        | Some (text, EmptyString) => inl text
        | Some _ => inr "did not find expected key"%string
        | None => inr "found unexpected end of stream"%string
        end
      else
        match cut value ": " with
        | Some _ => inr "mapping values are not allowed in this context"%string
        | None => inl value
        end
  | EmptyString => inl EmptyString
  end.

(** What a line of a header is to the decoder: a line that sets no field
    by itself (an empty line, a comment, an indented line, an item of a
    list), an entry [key: value] or [key:] at the left margin, or a
    scalar without a key. *)
Inductive yaml_line : Type :=
  | Skipped
  | Entry (key value : string)
  | Lone.

Definition yaml_line_of (line : string) : yaml_line :=
  if String.eqb line EmptyString || hasPrefix line " "
     || hasPrefix line "-" || hasPrefix line "#"
  then Skipped
  else
    match cut line ": " with
    | Some (key, value) => Entry key value
    | None =>
        match cut line ":" with
        | Some (key, EmptyString) => Entry key EmptyString
        | _ => Lone
        end
    end.

Definition yaml_set (key text : string) (out : postFM) : postFM :=
  if String.eqb key "title"
  then {| fm_Title := text; fm_Date := fm_Date out |}
  else if String.eqb key "date"
  then {| fm_Title := fm_Title out; fm_Date := text |}
  else out.

(** The lines in turn; [entries] and [lone] tell whether an entry, and a
    scalar without a key, came before.  A header that is one scalar is
    decoded into no field, without an error; a scalar among entries is
    an error of the parser. *)
Fixpoint yaml_decode (lines : list string) (entries lone : bool)
    (out : postFM) : postFM + error :=
  match lines with
  | [] => inl out
  | line :: lines =>
      match yaml_line_of line with
      | Skipped => yaml_decode lines entries lone out
      | Lone =>
          if entries then inr "could not find expected ':'"%string
          else yaml_decode lines entries true out
      | Entry key value =>
          if lone
          then inr "mapping values are not allowed in this context"%string
          else
            match yaml_scalar value with
            | inl text => yaml_decode lines true lone (yaml_set key text out)
            | inr e => inr e
            end
      end
  end.

(** A decoder to run the examples on, in place of [yaml.Unmarshal] into
    the header struct; the statements about [Build] are about every
    decoder.  It is the library on the headers that posts have: a block
    mapping with one entry to a line, [key: value] or [key:], at the left
    margin, with plain values and quoted values without escapes, and
    lists on indented lines below their keys.  The keys [title] and
    [date] set their fields and other keys are ignored, as are values
    that are not scalars; on an error nothing is decoded.  It knows
    nothing more of YAML: no flow collections, no block scalars, no
    values over several lines, no escapes, anchors or tags. *)
Definition yaml_lines (header : string) (fm : postFM)
    : postFM * option error :=
  match yaml_decode (strings_Split header newline) false false fm with
  | inl decoded => (decoded, None)
  | inr e => (fm, Some e)
  end.

(** A renderer that wraps the text in one paragraph. *)
Definition render_paragraph (md : string) : string := "<p>" +:+ md +:+ "</p>".

Definition en_locale : locale :=
  {[ "blog"%string := {[ "title"%string := "Blog"%string;
                          "description"%string := "My blog"%string ]};
     "meta"%string := {[ "rss_copyright"%string := "All rights"%string;
                          "json_feed"%string := "A JSON feed"%string ]};
     "header"%string := {[ "name"%string := "Christine"%string ]} ]}.

Definition post_file (path title date : string) : walk_entry :=
  File path (Contents ("---" +:+ newline +:+ "title: " +:+ title +:+ newline
                       +:+ "date: " +:+ date +:+ newline +:+ "---" +:+ newline
                       +:+ "Text of " +:+ title)).

Definition world_of (entries : list walk_entry) : World :=
  {| locale_file := λ _, inr (Loads en_locale);
     blog_walk := entries;
     resume_file := inr "resume"%string;
     bootTime := Time_zero;
     env_PORT := EmptyString |}.

(** Two posts, the older one found first. *)
Definition world_two : World :=
  world_of [Dir "./blog/";
            post_file "blog/first.md" "Old" "2020-01-01";
            post_file "blog/second.md" "New" "2020-09-19"].

(** Three posts, two of them of one day. *)
Definition world_three : World :=
  world_of [Dir "./blog/";
            post_file "blog/1.md" "One" "2021-01-01";
            post_file "blog/2.md" "Two" "2021-01-01";
            post_file "blog/3.md" "Three" "2020-01-01"].

(** Thirteen posts; the first two are of one day, and the seventh comes
    before them in the index. *)
Definition world_thirteen : World :=
  world_of [Dir "./blog/";
            post_file "blog/a.md" "A" "2021-01-01";
            post_file "blog/b.md" "B" "2021-01-01";
            post_file "blog/c.md" "C" "2021-06-01";
            post_file "blog/d.md" "D" "2021-05-01";
            post_file "blog/e.md" "E" "2021-04-01";
            post_file "blog/f.md" "F" "2021-05-01";
            post_file "blog/g.md" "G" "2021-03-01";
            post_file "blog/h.md" "H" "2020-01-01";
            post_file "blog/i.md" "I" "2020-01-01";
            post_file "blog/j.md" "J" "2020-01-01";
            post_file "blog/k.md" "K" "2020-01-01";
            post_file "blog/l.md" "L" "2020-01-01";
            post_file "blog/m.md" "M" "2020-01-01"].

(** A file whose header has a title only, and a file without a header. *)
Definition world_no_date : World :=
  world_of [Dir "./blog/";
            File "blog/nodate.md"
              (Contents ("---" +:+ newline +:+ "title: No date" +:+ newline
                         +:+ "---" +:+ newline +:+ "Text"));
            File "blog/plain.md" (Contents "Text without a header")].

(** A file whose header is opened and never closed. *)
Definition world_open_header : World :=
  world_of [Dir "./blog/";
            post_file "blog/fine.md" "Fine" "2020-01-01";
            File "blog/open.md"
              (Contents ("---" +:+ newline +:+ "title: Open" +:+ newline
                         +:+ "date: 2020-01-02" +:+ newline +:+ "Text"))].


(** A file with dots in a directory name and in its own name. *)
Definition world_dotted : World :=
  world_of [Dir "./blog/"; Dir "blog/a.b";
            post_file "blog/a.b/post.v2.md" "Dotted" "2020-01-01"].

(** A post of the year 0, and a post whose date does not parse. *)
Definition world_year_zero : World :=
  world_of [Dir "./blog/";
            post_file "blog/ancient.md" "Ancient" "0000-06-15";
            post_file "blog/bad.md" "Bad" "soon";
            post_file "blog/new.md" "New" "2020-09-19"].

(** An English locale without a blog title. *)
Definition world_no_title : World :=
  {| locale_file := λ _, inr (Loads (delete "blog"%string en_locale));
     blog_walk := [Dir "./blog/"; post_file "blog/a.md" "A" "2020-01-01"];
     resume_file := inr "resume"%string;
     bootTime := Time_zero;
     env_PORT := EmptyString |}.

(** The post that comes with the sources: its header, and the first
    words of its body. *)
Definition repo_post : walk_entry :=
  File "blog/TLDR-rust-2020-09-19.markdown"
    (Contents ("---" +:+ newline
               +:+ "title: " +:+ String dquote "TL;DR Rust"
               +:+ String dquote newline
               +:+ "date: 2020-09-19" +:+ newline
               +:+ "series: rust" +:+ newline
               +:+ "tags:" +:+ newline
               +:+ "  - go" +:+ newline
               +:+ "  - golang" +:+ newline
               +:+ "---" +:+ newline +:+ newline
               +:+ "Recently I've been starting to use Rust more and more")).

Definition world_repo_post : World := world_of [Dir "./blog/"; repo_post].

(** A file that does not read, before a file whose header is not
    closed. *)
Definition world_two_failures : World :=
  world_of [Dir "./blog/";
            post_file "blog/a.md" "A" "2020-01-01";
            File "blog/b.md" (ReadFails "read blog/b.md: input/output error");
            File "blog/c.md" (Contents ("---" +:+ newline +:+ "title: C"))].

(** No Toki Pona locale file, and no blog directory either. *)
Definition world_no_tp : World :=
  {| locale_file := λ path,
       if String.eqb path "locales/tp.json"
       then inl "open locales/tp.json: no such file or directory"%string
       else inr (Loads en_locale);
     blog_walk :=
       [WalkErr "./blog/" "lstat ./blog/: no such file or directory"];
     resume_file := inr "resume"%string;
     bootTime := Time_zero;
     env_PORT := EmptyString |}.

(** The posts of [world_two], no resume, and a port. *)
Definition world_no_resume : World :=
  {| locale_file := λ _, inr (Loads en_locale);
     blog_walk := blog_walk world_two;
     resume_file :=
       inl "open ./static/resume/resume.md: no such file or directory"%string;
     bootTime := Time_zero;
     env_PORT := "8080" |}.


(** ** What is stated of the build *)

(** The seconds that [Posts.Less] compares. *)
Definition postUnix (p : Post) : Z := Unix (time_Parse (Date p)).1.

(** The date of the post parses under the layout ["2006-01-02"]. *)
Definition dateParses (p : Post) : Prop := (time_Parse (Date p)).2 = None.

(** Newest first: in every adjacent pair the earlier post's date is not
    earlier than the later post's date. *)
Definition newest_first (ps : Posts) : Prop :=
  ∀ (i : nat) p q, ps !! i = Some p → ps !! S i = Some q →
                   postUnix q ≤ postUnix p.

(** Posts with equal [Date] values stand in [built] in the order they have
    in [loaded]. *)
Definition keeps_date_order (loaded built : Posts) : Prop :=
  ∀ date, filter (λ p, Date p = date) built
          = filter (λ p, Date p = date) loaded.

(** What [strings.Split(path, ".")[0]] comes to: the text of the path
    before its first ["."] (all of it when there is none). *)
Definition slug (path : string) : string :=
  match cut path "." with
  | Some (before, _) => before
  | None => path
  end.

(** The paths of the files among the calls of a walk. *)
Definition file_paths (entries : list walk_entry) : list string :=
  entries ≫= λ e, match e with File path _ => [path] | _ => [] end.

(** The canonical URL of a post: site origin, ["/"], [Link]. *)
Definition canonical_URL (p : Post) : string :=
  "https://christine.website" +:+ "/" +:+ Link p.

(** The keys that [Build] asks the English locale for. *)
Definition required_keys : list (string * string) :=
  [("blog", "title"); ("blog", "description"); ("meta", "rss_copyright");
   ("meta", "json_feed"); ("header", "name")]%string.

(** The call did not return a value. *)
Definition failed {A : Type} (r : result A) : Prop :=
  match r with Ok _ => False | _ => True end.

(** ** Assertions about slices under [sort] *)

Section sort_assertions.
Context {T : Type} (key : T → Z).
Implicit Types (d : list T) (i j k a b : Z).

(** The key at an index. *)
Definition kat d i : Z := from_option key 0 (get d i).

(** [m] run on [d] does not panic, and its result satisfies [Q]. *)
Definition ok {A} (m : M (list T) A) d (Q : A → list T → Prop) : Prop :=
  ∃ r d', m d = Some (r, d') ∧ Q r d'.

(** Elements with equal keys keep their order. *)
Definition same_order d d' : Prop :=
  ∀ k, filter (λ x, key x = k) d' = filter (λ x, key x = k) d.

(** [d'] rearranges [d] within [a, b) only. *)
Definition frame a b d d' : Prop :=
  Permutation d d' ∧
  (∀ i, ¬ (a ≤ i < b) → kat d' i = kat d i) ∧
  (∀ P : Z → Prop, (∀ i, a ≤ i < b → P (kat d i)) →
                   ∀ i, a ≤ i < b → P (kat d' i)).

Definition sorted_range d a b : Prop :=
  ∀ i j, a ≤ i → i ≤ j → j < b → kat d i ≤ kat d j.

(** What [data.Swap(i, j)] does to an in-range pair. *)
Definition exchanged i j d d' : Prop :=
  (∀ k, kat d' k = if decide (k = j) then kat d i
                   else if decide (k = i) then kat d j else kat d k) ∧
  Permutation d d' ∧
  length d' = length d ∧
  (j = i + 1 ∨ i = j + 1 → kat d i ≠ kat d j → same_order d d').

(** What [doPivot] leaves: the part below [mlo] is no larger than the
    pivot, the part from [mhi] on no smaller, and between them lie copies
    of the pivot, at least one. *)
Definition pivoted lo hi d (r : Z * Z) : Prop :=
  let '(mlo, mhi) := r in
  lo ≤ mlo ∧ mlo < mhi ∧ mhi ≤ hi ∧
  (∀ i, lo ≤ i < mlo → kat d i ≤ kat d mlo) ∧
  (∀ i, mlo ≤ i < mhi → kat d i = kat d mlo) ∧
  (∀ i, mhi ≤ i < hi → kat d mlo ≤ kat d i).

(** The state of [doPivot] from the main loop on: below [b] no larger
    than the pivot [p] held at [lo], from [c] on no smaller, and copies of
    the pivot between. *)
Definition parted lo hi p b c d0 d : Prop :=
  frame lo hi d0 d ∧ kat d lo = p ∧ lo < b ∧ b ≤ c ∧ c ≤ hi ∧
  (∀ i, lo < i < b → kat d i ≤ p) ∧
  (∀ i, b ≤ i < c → kat d i = p) ∧
  (∀ i, c ≤ i < hi → p ≤ kat d i).

(** The nodes from [s] on are no smaller than their children, in the heap
    of [n] nodes that starts at index [first]. *)
Definition heap_from d first s n : Prop :=
  ∀ j c, s ≤ j → c = 2 * j + 1 ∨ c = 2 * j + 2 → c < n →
         kat d (first + c) ≤ kat d (first + j).
End sort_assertions.

(** The key that [sort.Reverse(s.Posts)] sorts by, in ascending order. *)
Definition post_key (p : Post) : Z := - postUnix p.

(** ** What [Build] needs of the files *)

(** The header that a content file is decoded into starts out empty. *)
Definition no_header : postFM :=
  {| fm_Title := EmptyString; fm_Date := EmptyString |}.

(** The function that [Build] walks with returns nil for the entry: it is
    a directory, or a file that opens and reads and whose header is
    accepted. *)
Definition entry_accepted (yaml : string → postFM → postFM * option error)
    (e : walk_entry) : Prop :=
  match e with
  | Dir _ => True
  | File _ (Contents content) => ¬ header_rejected yaml content
  | _ => False
  end.

(** The post that the walk appends for an entry, if it appends one. *)
Definition post_of (yaml : string → postFM → postFM * option error)
    (render : string → string) (e : walk_entry) : option Post :=
  match e with
  | File path (Contents content) =>
      match front_Unmarshal yaml content no_header with
      | Ok (remaining, None, fm) =>
          Some {| Title := fm_Title fm;
                  Date := fm_Date fm;
                  Link := slug path;
                  Body := remaining;
                  BodyHTML := render remaining;
                  Summary := EmptyString |}
      | _ => None
      end
  | _ => None
  end.

(** The locale file of [lang] does not open, or does not load. *)
Definition locale_fails (w : World) (lang : string) (err : error) : Prop :=
  let path := filepath_Join "locales" (lang +:+ ".json") in
  locale_file w path = inl err ∨ locale_file w path = inr (LoadFails err).

(** Both locale files open and load, and the English one has the keys
    that [Build] asks for. *)
Definition locales_ready (w : World) : Prop :=
  ∃ l tp, locale_file w "locales/en.json" = inr (Loads l) ∧
          locale_file w "locales/tp.json" = inr (Loads tp) ∧
          ∀ group key, (group, key) ∈ required_keys →
                       is_Some (l !! group ≫= (.!! key)).


(** ** Days of the calendar *)

(** The year, month and day that the layout ["2006-01-02"] reads off a
    value, before their ranges are checked. *)
Definition dateFields (value : string) : option (Z * Z * Z) :=
  '(year, value) ← getLongYear value;
  value ← skipDash value;
  '(month, value) ← getnum value true;
  value ← skipDash value;
  '(day, value) ← getnum value true;
  if String.eqb value EmptyString then Some (year, month, day) else None.

(** [a] is a day of the calendar before the day [b]. *)
Definition earlier_day (a b : Z * Z * Z) : Prop :=
  let '(y, m, d) := a in
  let '(y', m', d') := b in
  y < y' ∨ (y = y' ∧ (m < m' ∨ (m = m' ∧ d < d'))).

(** ** Paths and their extensions *)


(** * Slices: reading, writing, exchanging *)

Section slices.
Context {T : Type}.
Implicit Types (d : list T) (i j k : Z) (x y : T).

Lemma get_Some d i x : get d i = Some x → 0 ≤ i < Z.of_nat (length d).
Proof.
  unfold get. destruct (Z.ltb_spec i 0) as [|Hi]; [done|].
  intros Hl%lookup_lt_Some. lia.
Qed.

Lemma get_in_range d i : 0 ≤ i < Z.of_nat (length d) → is_Some (get d i).
Proof.
  intros [? ?]. unfold get. destruct (Z.ltb_spec i 0); [lia|].
  apply lookup_lt_is_Some. lia.
Qed.

Lemma get_None d i : ¬ (0 ≤ i < Z.of_nat (length d)) → get d i = None.
Proof.
  intros H. destruct (get d i) eqn:E; [|done].
  apply get_Some in E. lia.
Qed.

Lemma length_set d i x : length (set d i x) = length d.
Proof. apply length_insert. Qed.

Lemma get_set_eq d i x :
  0 ≤ i < Z.of_nat (length d) → get (set d i x) i = Some x.
Proof.
  intros [? ?]. unfold get, set. destruct (Z.ltb_spec i 0); [lia|].
  apply list_lookup_insert_eq. lia.
Qed.

Lemma get_set_ne d i j x : 0 ≤ i → i ≠ j → get (set d i x) j = get d j.
Proof.
  intros ? ?. unfold get, set. destruct (Z.ltb_spec j 0); [done|].
  apply list_lookup_insert_ne. lia.
Qed.

(** The slice after [p[i], p[j] = p[j], p[i]]. *)
Lemma get_exchange d i j x y k :
  get d i = Some x → get d j = Some y →
  get (set (set d i y) j x) k =
    if decide (k = j) then Some x else if decide (k = i) then Some y
    else get d k.
Proof.
  intros Hi Hj. pose proof (get_Some _ _ _ Hi). pose proof (get_Some _ _ _ Hj).
  case_decide as E1.
  - subst k. apply get_set_eq. rewrite length_set. lia.
  - rewrite get_set_ne by lia. case_decide as E2.
    + subst k. apply get_set_eq. lia.
    + apply get_set_ne; lia.
Qed.

Lemma Permutation_exchange d i j x y :
  get d i = Some x → get d j = Some y →
  Permutation d (set (set d i y) j x).
Proof.
  intros Hi Hj. pose proof (get_Some _ _ _ Hi). pose proof (get_Some _ _ _ Hj).
  unfold get in Hi, Hj.
  destruct (Z.ltb_spec i 0); [lia|]. destruct (Z.ltb_spec j 0); [lia|].
  symmetry. apply Permutation_insert_swap; done.
Qed.

(** Exchanging two neighbours, seen on the list. *)
Lemma insert_neighbours (l : list T) (n : nat) x y :
  l !! n = Some x → l !! S n = Some y →
  l = take n l ++ x :: y :: drop (S (S n)) l ∧
  <[S n := x]> (<[n := y]> l) = take n l ++ y :: x :: drop (S (S n)) l.
Proof.
  revert n. induction l as [|z l IH]; intros [|n] Hx Hy; simplify_eq/=.
  - destruct l; simplify_eq/=. by rewrite drop_0.
  - destruct (IH n Hx Hy) as [E1 E2]. split; [by rewrite <-E1|].
    by rewrite E2.
Qed.
End slices.

(** * Reasoning about the statements of package sort *)

Section hoare.
Context {T : Type} (key : T → Z) (data : Interface (list T)).

(** The collection is a slice whose elements are ordered by [key]. *)
Hypothesis Len_slice : ∀ d, Len data d = Z.of_nat (length d).
Hypothesis Less_slice : ∀ d i j,
  Less data d i j =
    x ← get d i; y ← get d j; Some (bool_decide (key x < key y)).
Hypothesis Swap_slice : ∀ d i j,
  Swap data d i j = x ← get d i; y ← get d j; Some (set (set d i y) j x).

Implicit Types (d : list T) (i j k a b : Z).

Local Abbreviation kat := (kat key).
Local Abbreviation same_order := (same_order key).
Local Abbreviation frame := (frame key).
Local Abbreviation sorted_range := (sorted_range key).
Local Abbreviation exchanged := (exchanged key).
Local Abbreviation pivoted := (pivoted key).
Local Abbreviation parted := (parted key).
Local Abbreviation heap_from := (heap_from key).

Lemma ok_ret {A} (x : A) d (Q : A → list T → Prop) : Q x d → ok (mret x) d Q.
Proof. intros. by exists x, d. Qed.

Lemma ok_bind {A B} (m : M (list T) A) (f : A → M (list T) B) d Q :
  ok m d (λ x d', ok (f x) d' Q) → ok (m ≫= f) d Q.
Proof.
  intros (x & d' & Hm & y & d'' & Hf & HQ). exists y, d''. split; [|done].
  unfold mbind, M_bind. by rewrite Hm.
Qed.

Lemma ok_mono {A} (m : M (list T) A) d (Q Q' : A → list T → Prop) :
  ok m d Q → (∀ x d', Q x d' → Q' x d') → ok m d Q'.
Proof. intros (x & d' & ? & ?) HQ. exists x, d'. auto. Qed.

Lemma ok_less i j d (Q : bool → list T → Prop) :
  0 ≤ i < Z.of_nat (length d) → 0 ≤ j < Z.of_nat (length d) →
  Q (bool_decide (kat d i < kat d j)) d →
  ok (less data i j) d Q.
Proof.
  intros [x Hx]%get_in_range [y Hy]%get_in_range HQ.
  exists (bool_decide (key x < key y)), d. unfold less, kat in *.
  rewrite Less_slice, Hx, Hy in *. done.
Qed.

Lemma length_frame a b d d' : frame a b d d' → length d' = length d.
Proof. intros [H _]. symmetry. by apply Permutation_length. Qed.

Lemma frame_refl a b d : frame a b d d.
Proof. repeat split; auto. Qed.

Lemma frame_trans a b d1 d2 d3 :
  frame a b d1 d2 → frame a b d2 d3 → frame a b d1 d3.
Proof.
  intros (P1 & O1 & I1) (P2 & O2 & I2). repeat split.
  - by etrans.
  - intros i Hi. rewrite O2, O1; auto.
  - intros P HP. apply I2, I1, HP.
Qed.

Lemma frame_mono a b a' b' d d' :
  a' ≤ a → b ≤ b' → frame a b d d' → frame a' b' d d'.
Proof.
  intros ? ? (P1 & O1 & I1). repeat split; [done|..].
  - intros i Hi. apply O1. lia.
  - intros P HP i Hi.
    destruct (decide (a ≤ i < b)) as [Hin|Hout].
    + apply (I1 P); [|done]. intros. apply HP. lia.
    + rewrite O1 by done. by apply HP.
Qed.

Lemma ok_swap i j d (Q : unit → list T → Prop) :
  0 ≤ i < Z.of_nat (length d) → 0 ≤ j < Z.of_nat (length d) →
  (∀ d', exchanged i j d d' → Q () d') →
  ok (swap data i j) d Q.
Proof.
  intros Hi Hj HQ.
  destruct (get_in_range d i Hi) as [x Hx].
  destruct (get_in_range d j Hj) as [y Hy].
  exists (), (set (set d i y) j x). unfold swap.
  rewrite Swap_slice, Hx, Hy. split; [done|]. apply HQ. repeat split.
  - intros k. unfold kat. rewrite (get_exchange d i j x y) by done.
    rewrite Hx, Hy. by repeat case_decide.
  - by apply Permutation_exchange.
  - by rewrite !length_set.
  - intros Hadj Hne k. unfold kat in Hne. rewrite Hx, Hy in Hne.
    simpl in Hne. unfold get in Hx, Hy.
    destruct (Z.ltb_spec i 0); [lia|]. destruct (Z.ltb_spec j 0); [lia|].
    unfold set. destruct Hadj as [-> | ->].
    + replace (Z.to_nat (i + 1)) with (S (Z.to_nat i)) in * by lia.
      destruct (insert_neighbours d (Z.to_nat i) x y Hx Hy) as [E1 E2].
      rewrite E2. rewrite E1 at 3.
      rewrite !filter_app, !filter_cons.
      repeat case_decide; try done; lia.
    + replace (Z.to_nat (j + 1)) with (S (Z.to_nat j)) in * by lia.
      destruct (insert_neighbours d (Z.to_nat j) y x Hy Hx) as [E1 E2].
      rewrite list_insert_insert_ne by lia.
      rewrite E2. rewrite E1 at 3.
      rewrite !filter_app, !filter_cons.
      repeat case_decide; try done; lia.
Qed.

Lemma frame_exchanged a b i j d d' :
  a ≤ i < b → a ≤ j < b → exchanged i j d d' → frame a b d d'.
Proof.
  intros Hi Hj (K & P & _ & _). repeat split; [done|..].
  - intros k Hk. rewrite K. repeat case_decide; lia || done.
  - intros Q HQ k Hk. rewrite K. repeat case_decide; apply HQ; lia.
Qed.

Lemma same_order_refl d : same_order d d.
Proof. done. Qed.

Lemma same_order_trans d1 d2 d3 :
  same_order d1 d2 → same_order d2 d3 → same_order d1 d3.
Proof. intros H1 H2 k. by rewrite H2, H1. Qed.

(** The rule for [for] statements: an invariant and a bound on the rounds
    left. *)
Lemma ok_loop {St R} (Inv : St → list T → Prop) (mu : St → Z)
    (Q : R → list T → Prop) (body : St → M (list T) (St + R)) fuel s d :
  Inv s d → mu s < Z.of_nat fuel →
  (∀ s d, Inv s d →
     0 ≤ mu s ∧
     ok (body s) d (λ r d', match r with
                            | inl s' => Inv s' d' ∧ mu s' < mu s
                            | inr r => Q r d'
                            end)) →
  ok (loop fuel body s) d Q.
Proof.
  intros HI Hmu Hbody. revert s d HI Hmu.
  induction fuel as [|fuel IH]; intros s d HI Hmu.
  { destruct (Hbody s d HI) as [? _]. lia. }
  destruct (Hbody s d HI) as [? Hb]. simpl. apply ok_bind.
  eapply ok_mono; [exact Hb|]. intros [s'|r] d' HQ; simpl in HQ.
  - destruct HQ as [HI' Hlt]. apply IH; [done|lia].
  - by apply ok_ret.
Qed.

Ltac wp :=
  repeat lazymatch goal with
  | |- ok (mret _) _ _ => apply ok_ret
  | |- ok (_ ≫= _) _ _ => apply ok_bind
  | |- ok (less _ _ _) _ _ => apply ok_less; [lia | lia |]
  | |- ok (if ?x <? ?y then _ else _) _ _ => destruct (Z.ltb_spec x y)
  | |- ok (if ?x <=? ?y then _ else _) _ _ => destruct (Z.leb_spec x y)
  | |- ok (if bool_decide _ then _ else _) _ _ => case_bool_decide
  | |- ok (if negb (bool_decide _) then _ else _) _ _ =>
      case_bool_decide; cbn [negb]
  end.

(** Use every fact about a range of indices at the index [i], when [i]
    lies in the range. *)
Ltac at_index i :=
  repeat match goal with
  | H : ∀ k : Z, @?A k → @?B k |- _ =>
      let t := eval cbv beta in (B i) in
      lazymatch goal with
      | _ : t |- _ => fail
      | _ => let F := fresh "F" in
             assert (F : t) by (apply H; lia)
      end
  end.

Ltac wp_swap d' H :=
  first [apply ok_swap | apply ok_bind, ok_swap]; [lia | lia | intros d' H].

(** ** Insertion sort *)

Lemma insertionSort_ok a b d :
  0 ≤ a → b ≤ Z.of_nat (length d) →
  ok (insertionSort data a b) d (λ _ d',
    frame a b d d' ∧ sorted_range d' a b ∧ same_order d d').
Proof.
  intros Ha Hb. unfold insertionSort.
  apply (ok_loop
    (λ i d', a < i ∧ (i = a + 1 ∨ i ≤ b) ∧ frame a b d d' ∧
             sorted_range d' a i ∧ same_order d d')
    (λ i, Z.max 0 (b - i))).
  { split_and!; [lia|auto|apply frame_refl| |done].
    intros i j ? ? ?. by replace j with i by lia. }
  { lia. }
  intros i d1 (Hi1 & Hi2 & Hf1 & Hs1 & Ho1). split; [lia|].
  pose proof (length_frame _ _ _ _ Hf1) as Hl1. wp.
  2:{ split_and!; [done| |done]. intros p q ? ? ?. apply Hs1; lia. }
  apply (ok_loop
    (λ j d', a ≤ j ≤ i ∧ frame a b d d' ∧ same_order d d' ∧
             (∀ p q, a ≤ p → p ≤ q → q ≤ i → p ≠ j → q ≠ j →
                     kat d' p ≤ kat d' q) ∧
             (∀ q, j < q → q ≤ i → kat d' j < kat d' q))
    (λ j, j - a)).
  { split_and!; [lia..|done|done| |].
    - intros p q ? ? ? ? ?. apply Hs1; lia.
    - intros q ? ?. lia. }
  { lia. }
  intros j d2 (Hj & Hf2 & Ho2 & Hs2 & Hlt2). split; [lia|].
  pose proof (length_frame _ _ _ _ Hf2) as Hl2.
  assert (Hdone : (j = a ∨ kat d2 (j - 1) ≤ kat d2 j) →
    (a < i + 1 ∧ (i + 1 = a + 1 ∨ i + 1 ≤ b) ∧ frame a b d d2 ∧
     sorted_range d2 a (i + 1) ∧ same_order d d2) ∧
    Z.max 0 (b - (i + 1)) < Z.max 0 (b - i)).
  { intros Hex. split_and!; [lia|lia|done| |done|lia].
    intros p q ? ? ?.
    destruct (decide (p = q)) as [->|]; [lia|].
    destruct (decide (q = j)) as [->|].
    { destruct Hex as [->|Hex]; [lia|].
      etrans; [|exact Hex].
      destruct (decide (p = j - 1)) as [->|]; [lia|]. apply Hs2; lia. }
    destruct (decide (p = j)) as [->|].
    { apply Z.lt_le_incl, Hlt2; lia. }
    apply Hs2; lia. }
  wp.
  - wp_swap d3 Hx. destruct Hx as (K & P & L & O). wp.
    assert (Hf3 : frame a b d d3).
    { eapply frame_trans; [exact Hf2|].
      apply (frame_exchanged a b j (j - 1)); [lia..|]. done. }
    split_and!; [lia..|done| | | |lia].
    + eapply same_order_trans; [exact Ho2|]. apply O; lia.
    + intros p q ? ? ? ? ?. rewrite !K. repeat case_decide; try lia.
      * apply Hs2; lia.
      * apply Hs2; lia.
      * apply Hs2; lia.
    + intros q ? ?. rewrite !K. repeat case_decide; try lia.
      apply Hlt2; lia.
  - wp. apply Hdone. lia.
  - wp. apply Hdone. lia.
Qed.

(** ** Choosing and placing the pivot *)

Lemma medianOfThree_ok lo hi m1 m0 m2 d :
  0 ≤ lo → hi ≤ Z.of_nat (length d) →
  lo ≤ m1 < hi → lo ≤ m0 < hi → lo ≤ m2 < hi →
  ok (medianOfThree data m1 m0 m2) d (λ _ d',
    frame lo hi d d' ∧
    (m0 ≠ m1 → m1 ≠ m2 → m0 ≠ m2 →
     kat d' m0 ≤ kat d' m1 ∧ kat d' m1 ≤ kat d' m2)).
Proof.
  intros ? ? ? ? ?. unfold medianOfThree.
  assert (Hstep : ∀ d1, frame lo hi d d1 →
    ok (if bool_decide (kat d1 m1 < kat d1 m0)
        then swap data m1 m0 else mret ()) d1 (λ _ d2,
      frame lo hi d d2 ∧
      (m0 ≠ m1 → kat d2 m0 = Z.min (kat d1 m0) (kat d1 m1) ∧
                 kat d2 m1 = Z.max (kat d1 m0) (kat d1 m1)) ∧
      (m0 ≠ m2 → m1 ≠ m2 → kat d2 m2 = kat d1 m2))).
  { intros d1 Hf1. pose proof (length_frame _ _ _ _ Hf1). wp.
    - wp_swap d2 Hx. split_and!.
      + eapply frame_trans; [done|]. by apply (frame_exchanged lo hi m1 m0).
      + destruct Hx as (K & _). intros. rewrite !K.
        repeat case_decide; lia.
      + destruct Hx as (K & _). intros. rewrite !K.
        repeat case_decide; lia.
    - split_and!; [done|lia|done]. }
  apply ok_bind, ok_less; [lia..|]. apply ok_bind.
  eapply ok_mono; [apply Hstep, frame_refl|].
  intros _ d2 (Hf2 & Ho2 & _). pose proof (length_frame _ _ _ _ Hf2). wp.
  - wp_swap d3 Hx.
    assert (Hf3 : frame lo hi d d3).
    { eapply frame_trans; [done|]. by apply (frame_exchanged lo hi m2 m1). }
    pose proof (length_frame _ _ _ _ Hf3).
    destruct Hx as (K & _). apply ok_bind, ok_less; [lia..|].
    eapply ok_mono; [apply Hstep, Hf3|].
    intros _ d4 (Hf4 & Ho4 & Hk4). split; [done|]. intros.
    rewrite Hk4 by done. destruct Ho4 as [-> ->]; [done|].
    rewrite !K. repeat case_decide; lia.
  - split; [done|]. intros. lia.
Qed.

Lemma doPivot_ok lo hi d :
  0 ≤ lo → hi ≤ Z.of_nat (length d) → 12 < hi - lo →
  ok (doPivot data lo hi) d (λ r d', frame lo hi d d' ∧ pivoted lo hi d' r).
Proof.
  intros Hlo Hhi Hn. unfold doPivot.
  set (fuel := (Z.to_nat (hi - lo) + 1)%nat).
  set (m := Z.shiftr (lo + hi) 1).
  assert (Hm : 2 * m ≤ lo + hi < 2 * m + 2).
  { unfold m. rewrite Z.shiftr_div_pow2 by lia. change (2 ^ 1) with 2.
    Z.to_euclidean_division_equations. lia. }
  apply ok_bind.
  apply (ok_mono _ _ (λ _ d1, frame lo hi d d1)).
  { destruct (Z.ltb_spec 40 (hi - lo)); [|apply ok_ret, frame_refl].
    set (s := (hi - lo) `quot` 8).
    assert (Hs : 8 * s ≤ hi - lo < 8 * s + 8).
    { unfold s. Z.to_euclidean_division_equations. lia. }
    apply ok_bind.
    eapply ok_mono; [apply (medianOfThree_ok lo hi); lia|].
    intros _ d1 [Hf1 _]. pose proof (length_frame _ _ _ _ Hf1).
    apply ok_bind.
    eapply ok_mono; [apply (medianOfThree_ok lo hi); lia|].
    intros _ d2 [Hf2 _]. pose proof (length_frame _ _ _ _ Hf2).
    eapply ok_mono; [apply (medianOfThree_ok lo hi); lia|].
    intros _ d3 [Hf3 _]. eauto using frame_trans. }
  intros _ d1 Hf1. pose proof (length_frame _ _ _ _ Hf1).
  apply ok_bind.
  eapply ok_mono; [apply (medianOfThree_ok lo hi lo m (hi - 1)); lia|].
  intros _ d2 [Hf2' Hmed]. pose proof (length_frame _ _ _ _ Hf2') as Hl2.
  assert (Hf2 : frame lo hi d d2) by eauto using frame_trans.
  destruct Hmed as [_ Hmed]; [lia..|]. clear Hf2' Hf1.
  remember (kat d2 lo) as p eqn:Hp.
  (* the scan for the first element that is not smaller than the pivot *)
  apply ok_bind.
  apply (ok_mono _ _ (λ a d', d' = d2 ∧ lo < a ∧ a ≤ hi - 1 ∧
                              ∀ i, lo < i < a → kat d2 i ≤ p)).
  { apply (ok_loop (λ a d', d' = d2 ∧ lo < a ∧ a ≤ hi - 1 ∧
                            ∀ i, lo < i < a → kat d2 i ≤ p)
                   (λ a, hi - a)).
    { split_and!; [done|lia..|]. intros; lia. }
    { lia. }
    intros a ? (-> & Ha1 & Ha2 & Ha3). split; [lia|]. wp; [|done..].
    split_and!; [done|lia..| |lia].
    intros i ?. destruct (decide (i = a)) as [->|]; [lia|].
    apply Ha3; lia. }
  intros a ? (-> & Ha1 & Ha2 & Ha3).
  (* the main loop *)
  apply ok_bind.
  apply (ok_mono _ _ (λ '(b, c) d', parted lo hi p b c d d' ∧ b = c ∧
                                    c ≤ hi - 1)).
  { apply (ok_loop
      (λ '(b, c) d', frame lo hi d d' ∧ kat d' lo = p ∧ lo < b ∧ b ≤ c ∧
                     c ≤ hi - 1 ∧ (∀ i, lo < i < b → kat d' i ≤ p) ∧
                     (∀ i, c ≤ i < hi → p ≤ kat d' i))
      (λ '(b, c), c - b)).
    { split_and!; [done|done|lia..|done|].
      intros i ?. replace i with (hi - 1) by lia. done. }
    { lia. }
    intros [b c] d3 (Hf3 & Hp3 & Hb1 & Hb2 & Hc1 & Hlow & Hhigh).
    split; [lia|]. pose proof (length_frame _ _ _ _ Hf3) as Hl3.
    apply ok_bind.
    apply (ok_mono _ _ (λ b' d', d' = d3 ∧ b ≤ b' ∧ b' ≤ c ∧
                                 (∀ i, lo < i < b' → kat d3 i ≤ p) ∧
                                 (b' = c ∨ p < kat d3 b'))).
    { apply (ok_loop (λ b' d', d' = d3 ∧ b ≤ b' ∧ b' ≤ c ∧
                               (∀ i, lo < i < b' → kat d3 i ≤ p))
                     (λ b', c - b')).
      { done. }
      { lia. }
      intros b' ? (-> & ? & ? & Hlow'). split; [lia|]. wp.
      - split_and!; [done|lia..|auto|lia].
      - split_and!; [done|lia..| |lia].
        intros i ?. destruct (decide (i = b')) as [->|]; [lia|].
        apply Hlow'; lia.
      - split_and!; [done|lia..|auto|lia]. }
    intros b' ? (-> & ? & ? & Hlow' & Hb').
    apply ok_bind.
    apply (ok_mono _ _ (λ c' d', d' = d3 ∧ b' ≤ c' ∧ c' ≤ c ∧
                                 (∀ i, c' ≤ i < hi → p ≤ kat d3 i) ∧
                                 (b' = c' ∨ kat d3 (c' - 1) ≤ p))).
    { apply (ok_loop (λ c' d', d' = d3 ∧ b' ≤ c' ∧ c' ≤ c ∧
                               (∀ i, c' ≤ i < hi → p ≤ kat d3 i))
                     (λ c', c' - b')).
      { done. }
      { lia. }
      intros c' ? (-> & ? & ? & Hhigh'). split; [lia|]. wp.
      - split_and!; [done|lia..| |lia].
        intros i ?. destruct (decide (i = c' - 1)) as [->|]; [lia|].
        apply Hhigh'; lia.
      - split_and!; [done|lia..|auto|lia].
      - split_and!; [done|lia..|auto|lia]. }
    intros c' ? (-> & ? & ? & Hhigh' & Hc'). wp.
    - split; [|lia]. unfold parted. split_and!; try done; try lia.
    - wp_swap d4 Hx. destruct Hx as (K & Hx). wp.
      assert (b' ≠ c' - 1) by (intros ->; lia).
      split_and!; try lia.
      + eapply frame_trans; [done|].
        apply (frame_exchanged lo hi b' (c' - 1)); [lia..|]. by split.
      + rewrite K. repeat case_decide; lia.
      + intros i ?. rewrite K. repeat case_decide; try lia.
        apply Hlow'; lia.
      + intros i ?. rewrite K. repeat case_decide; try lia.
        apply Hhigh'; lia. }
  intros [b c] d3 (Hpart & Hbc & Hc). cbv zeta.
  (* the tests for copies of the pivot *)
  apply ok_bind.
  apply (ok_mono _ _ (λ '(b', c', _) d', parted lo hi p b' c' d d')).
  { destruct (Z.ltb_spec (hi - c) 5); cbn [negb andb]; [by apply ok_ret|].
    set (q := (hi - lo) `quot` 4).
    assert (Hq : 4 * q ≤ hi - lo < 4 * q + 4).
    { unfold q. Z.to_euclidean_division_equations. lia. }
    destruct (Z.ltb_spec (hi - c) q); [|by apply ok_ret].
    pose proof Hpart as (Hf3 & Hp3 & ? & ? & ? & Hlow & Heq & Hhigh).
    pose proof (length_frame _ _ _ _ Hf3) as Hl3.
    apply ok_bind, ok_less; [lia..|]. rewrite Hp3.
    apply ok_bind.
    apply (ok_mono _ _ (λ '(c1, _) d', parted lo hi p b c1 d d' ∧ c ≤ c1)).
    { case_bool_decide; cbn [negb]; [by apply ok_ret|].
      wp_swap d4 Hx. destruct Hx as (K & Hx). wp. split; [|lia].
      assert (kat d3 (hi - 1) = p) by (at_index (hi - 1); lia).
      unfold parted. split_and!; try lia.
      - eapply frame_trans; [done|].
        apply (frame_exchanged lo hi c (hi - 1)); [lia..|]. by split.
      - rewrite K. repeat case_decide; lia.
      - intros i ?. rewrite K. repeat case_decide; try lia. by apply Hlow.
      - intros i ?. rewrite K. repeat case_decide; lia.
      - intros i ?. rewrite K. repeat case_decide; try lia.
        + at_index c. lia.
        + apply Hhigh. lia. }
    clear Hpart Hf3 Hp3 Hlow Heq Hhigh Hl3.
    intros [c1 dups1] d4 [Hpart ?].
    pose proof Hpart as (Hf4 & Hp4 & ? & ? & ? & Hlow & Heq & Hhigh).
    pose proof (length_frame _ _ _ _ Hf4) as Hl4.
    apply ok_bind, ok_less; [lia..|]. rewrite Hp4.
    match goal with
    | |- ok (let '(_, _) := ?e in _) _ _ =>
        assert (He : ∃ b2 dups2, e = (b2, dups2) ∧
                       parted lo hi p b2 c1 d d4 ∧ c - 1 ≤ b2)
    end.
    { case_bool_decide; cbn [negb]; eexists _, _; (split; [reflexivity|]);
        (split; [|lia]); [done|].
      at_index (b - 1).
      unfold parted. split_and!; try done; try lia.
      - intros i ?. apply Hlow. lia.
      - intros i ?. destruct (decide (i = b - 1)) as [->|]; [lia|].
        apply Heq. lia. }
    destruct He as (b2 & dups2 & -> & Hpart5 & ?).
    clear Hpart Hlow Heq Hhigh.
    pose proof Hpart5 as (_ & _ & ? & ? & ? & Hlow & Heq & Hhigh).
    apply ok_bind, ok_less; [lia..|]. rewrite Hp4.
    apply ok_bind.
    apply (ok_mono _ _ (λ '(b3, _) d', parted lo hi p b3 c1 d d')).
    { case_bool_decide; cbn [negb]; [by apply ok_ret|].
      wp_swap d5 Hx. destruct Hx as (K & Hx). wp.
      assert (kat d4 m = p) by (at_index m; lia).
      at_index (b2 - 1).
      unfold parted. split_and!; try lia.
      - eapply frame_trans; [done|].
        apply (frame_exchanged lo hi m (b2 - 1)); [lia..|]. by split.
      - rewrite K. repeat case_decide; lia.
      - intros i ?. rewrite K. repeat case_decide; try lia.
        apply Hlow. lia.
      - intros i ?. rewrite K. repeat case_decide; try lia.
        apply Heq. lia.
      - intros i ?. rewrite K. repeat case_decide; try lia.
        apply Hhigh. lia. }
    intros [b3 dups3] d5 Hpart6. by apply ok_ret. }
  clear dependent b. clear dependent d3. clear Hc.
  intros [[b c'] protect] d3 Hpart.
  (* the protection against a lot of duplicates *)
  apply ok_bind.
  apply (ok_mono _ _ (λ b' d', parted lo hi p b' c' d d')).
  { destruct protect; [|by apply ok_ret].
    apply ok_bind.
    apply (ok_mono _ _ (λ '(_, b') d', parted lo hi p b' c' d d')).
    2:{ intros [? b'] d4 ?. by apply ok_ret. }
    apply (ok_loop (λ '(a', b') d', parted lo hi p b' c' d d' ∧ lo < a')
                   (λ '(a', b'), Z.max 0 (b' - a'))).
    { done. }
    { destruct Hpart as (_ & _ & ? & ? & ? & _). lia. }
    clear dependent b. clear dependent d3.
    intros [a' b] d3 [Hpart Ha']. split; [lia|].
    pose proof Hpart as (Hf3 & Hp3 & ? & ? & ? & _).
    pose proof (length_frame _ _ _ _ Hf3) as Hl3.
    apply ok_bind.
    apply (ok_mono _ _ (λ b' d', d' = d3 ∧ parted lo hi p b' c' d d3 ∧
                                 b' ≤ b ∧ (b' ≤ a' ∨ kat d3 (b' - 1) < p))).
    { apply (ok_loop (λ b' d', d' = d3 ∧ parted lo hi p b' c' d d3 ∧ b' ≤ b)
                     (λ b', Z.max 0 (b' - a'))).
      { done. }
      { lia. }
      intros b' ? (-> & Hpart' & ?). split; [lia|].
      pose proof Hpart' as (_ & _ & ? & ? & ? & Hlow & Heq & Hhigh). wp.
      - split_and!; [done..|lia].
      - split_and!; [done| |lia..]. at_index (b' - 1).
        unfold parted. split_and!; try done; try lia.
        + intros i ?. apply Hlow. lia.
        + intros i ?. destruct (decide (i = b' - 1)) as [->|]; [lia|].
          apply Heq. lia.
      - split_and!; [done..|lia]. }
    intros b' ? (-> & Hpart' & ? & Hb').
    apply ok_bind.
    apply (ok_mono _ _ (λ a'' d', d' = d3 ∧ a' ≤ a'' ∧
                                  (b' ≤ a'' ∨ ¬ kat d3 a'' < p))).
    { apply (ok_loop (λ a'' d', d' = d3 ∧ a' ≤ a'')
                     (λ a'', Z.max 0 (b' - a''))).
      { done. }
      { lia. }
      intros a'' ? (-> & ?). split; [lia|].
      pose proof Hpart' as (_ & _ & ? & ? & ? & _). wp.
      - split_and!; [done|lia..].
      - split_and!; [done|lia..].
      - split_and!; [done|lia..]. }
    intros a'' ? (-> & ? & Ha'').
    pose proof Hpart' as (_ & _ & ? & ? & ? & Hlow & Heq & Hhigh). wp.
    { done. }
    wp_swap d4 Hx. destruct Hx as (K & Hx). wp.
    at_index a''.
    assert (a'' ≠ b' - 1) by (intros ->; lia).
    split; [|lia]. split; [|lia].
    unfold parted. split_and!; try lia.
    - eapply frame_trans; [done|].
      apply (frame_exchanged lo hi a'' (b' - 1)); [lia..|]. by split.
    - rewrite K. repeat case_decide; lia.
    - intros i ?. rewrite K. repeat case_decide; try lia. apply Hlow. lia.
    - intros i ?. rewrite K. repeat case_decide; try lia. apply Heq. lia.
    - intros i ?. rewrite K. repeat case_decide; try lia. apply Hhigh. lia. }
  clear dependent b. clear dependent d3.
  intros b d3 (Hf3 & Hp3 & ? & ? & ? & Hlow & Heq & Hhigh).
  pose proof (length_frame _ _ _ _ Hf3) as Hl3.
  (* the pivot goes to the middle *)
  wp_swap d4 Hx. destruct Hx as (K & Hx). wp. split.
  - eapply frame_trans; [done|].
    apply (frame_exchanged lo hi lo (b - 1)); [lia..|]. by split.
  - unfold pivoted. split_and!; try lia.
    + intros i ?. rewrite !K. repeat case_decide; try lia.
      * at_index (b - 1). lia.
      * at_index i. lia.
    + intros i ?. rewrite !K. repeat case_decide; try lia.
      at_index i. lia.
    + intros i ?. rewrite !K. repeat case_decide; try lia.
      at_index i. lia.
Qed.

(** ** Heapsort *)

Lemma heap_root_max d first n j :
  heap_from d first 0 n → 0 ≤ j < n → kat d (first + j) ≤ kat d first.
Proof.
  intros Hh. remember (Z.to_nat j) as k eqn:Hk.
  revert j Hk. induction (lt_wf k) as [k _ IH]. intros j -> Hj.
  destruct (decide (j = 0)) as [->|]; [by rewrite Z.add_0_r|].
  set (q := (j - 1) `div` 2).
  assert (j = 2 * q + 1 ∨ j = 2 * q + 2).
  { unfold q. Z.to_euclidean_division_equations. lia. }
  etrans; [apply (Hh q j); lia|].
  apply (IH (Z.to_nat q)); lia.
Qed.

Lemma siftDown_ok lo hi first d :
  0 ≤ lo → 0 ≤ first → first + hi ≤ Z.of_nat (length d) →
  heap_from d first (lo + 1) hi →
  ok (siftDown data lo hi first) d (λ _ d',
    frame (first + lo) (first + hi) d d' ∧ heap_from d' first lo hi).
Proof.
  intros Hlo Hfirst Hhi Hheap. unfold siftDown.
  apply (ok_loop
    (λ root d', lo ≤ root ∧ frame (first + lo) (first + hi) d d' ∧
       (∀ j c, lo ≤ j → j ≠ root → c = 2 * j + 1 ∨ c = 2 * j + 2 → c < hi →
               kat d' (first + c) ≤ kat d' (first + j)) ∧
       (∀ j c, lo ≤ j → root = 2 * j + 1 ∨ root = 2 * j + 2 →
               c = 2 * root + 1 ∨ c = 2 * root + 2 → c < hi →
               kat d' (first + c) ≤ kat d' (first + j)))
    (λ root, Z.max 0 (hi - root))).
  { split_and!; [lia|apply frame_refl| |].
    - intros j c ? ? ? ?. apply Hheap; [lia|done..].
    - intros j c ? ? ? ?. lia. }
  { lia. }
  intros root d1 (Hroot & Hf1 & Hin & Hup). split; [lia|].
  pose proof (length_frame _ _ _ _ Hf1) as Hl1. cbv zeta.
  destruct (Z.leb_spec hi (2 * root + 1)).
  { apply ok_ret. split; [done|]. intros j c ? ? ?.
    destruct (decide (j = root)) as [->|]; [lia|]. by apply Hin. }
  apply ok_bind.
  apply (ok_mono _ _ (λ lt d', d' = d1 ∧
    let cm := if lt : bool then 2 * root + 2 else 2 * root + 1 in
    (cm = 2 * root + 1 ∨ cm = 2 * root + 2) ∧ cm < hi ∧
    ∀ c, c = 2 * root + 1 ∨ c = 2 * root + 2 → c < hi →
         kat d1 (first + c) ≤ kat d1 (first + cm))).
  { destruct (Z.ltb_spec (2 * root + 1 + 1) hi).
    - apply ok_less; [lia..|]. split; [done|].
      replace (first + (2 * root + 1) + 1) with (first + (2 * root + 2))
        by lia.
      replace (2 * root + 1 + 1) with (2 * root + 2) by lia.
      case_bool_decide; cbv zeta; (split_and!; [lia..|]);
        intros c [-> | ->] ?; lia.
    - apply ok_ret. split; [done|]. cbv zeta. split_and!; [lia..|].
      intros c [-> | ->] ?; lia. }
  intros lt ? [-> Hcm]. cbv zeta in Hcm.
  replace (2 * root + 1 + 1) with (2 * root + 2) by lia.
  set (cm := if lt then 2 * root + 2 else 2 * root + 1) in *.
  clearbody cm. destruct Hcm as (Hcm1 & Hcm2 & Hcm3).
  apply ok_bind, ok_less; [lia..|]. case_bool_decide; cbn [negb].
  - wp_swap d2 Hx. destruct Hx as (K & Hx). wp.
    split; [|lia]. split_and!; [lia| | |].
    + eapply frame_trans; [done|].
      apply (frame_exchanged _ _ (first + root) (first + cm)); [lia..|].
      by split.
    + intros j c ? ? Hc ?. rewrite !K.
      destruct (decide (j = root)) as [->|].
      * pose proof (Hcm3 c Hc ltac:(lia)). repeat case_decide; lia.
      * pose proof (Hin j c ltac:(lia) ltac:(lia) Hc ltac:(lia)).
        repeat case_decide; try lia.
        replace c with root in * by lia.
        pose proof (Hup j cm ltac:(lia) Hc Hcm1 ltac:(lia)). lia.
    + intros j c ? ? Hc ?. rewrite !K. replace j with root in * by lia.
      pose proof (Hin cm c ltac:(lia) ltac:(lia) Hc ltac:(lia)).
      repeat case_decide; lia.
  - apply ok_ret. split; [done|]. intros j c ? Hc ?.
    destruct (decide (j = root)) as [->|]; [|by apply Hin].
    pose proof (Hcm3 c Hc ltac:(lia)). lia.
Qed.

Lemma heapSort_ok a b d :
  0 ≤ a → a < b → b ≤ Z.of_nat (length d) →
  ok (heapSort data a b) d (λ _ d', frame a b d d' ∧ sorted_range d' a b).
Proof.
  intros Ha Hab Hb. unfold heapSort. cbv zeta.
  set (hi := b - a).
  assert (Hq : 2 * ((hi - 1) `quot` 2) ≤ hi - 1 < 2 * ((hi - 1) `quot` 2) + 2).
  { Z.to_euclidean_division_equations. lia. }
  apply ok_bind.
  apply (ok_mono _ _ (λ _ d', frame a b d d' ∧ heap_from d' a 0 hi)).
  { apply (ok_loop
      (λ i d', -1 ≤ i ∧ 2 * i ≤ hi - 1 ∧ frame a b d d' ∧
               heap_from d' a (i + 1) hi)
      (λ i, i + 1)).
    { split_and!; [lia..|apply frame_refl|]. intros j c ? ? ?. lia. }
    { lia. }
    intros i d1 (Hi1 & Hi2 & Hf1 & Hh1). split; [lia|].
    pose proof (length_frame _ _ _ _ Hf1) as Hl1. wp.
    - eapply ok_mono; [apply siftDown_ok; [lia..|done]|].
      intros _ d2 [Hf2 Hh2]. wp. split; [|lia].
      split_and!; [lia..| |by replace (i - 1 + 1) with i by lia].
      eapply frame_trans; [done|].
      eapply frame_mono; [| |done]; unfold hi; lia.
    - split; [done|]. by replace 0 with (i + 1) by lia. }
  intros _ d1 [Hf1 Hh1].
  apply (ok_loop
    (λ i d', -1 ≤ i ≤ hi - 1 ∧ frame a b d d' ∧ heap_from d' a 0 (i + 1) ∧
             sorted_range d' (a + i + 1) b ∧
             (∀ j k, a ≤ j ≤ a + i → a + i < k < b → kat d' j ≤ kat d' k))
    (λ i, i + 1)).
  { split_and!; [lia..|done|by replace (hi - 1 + 1) with hi by lia| |].
    - intros i j ? ? ?. unfold hi in *. replace j with i by lia. done.
    - intros j k ? ?. unfold hi in *. lia. }
  { lia. }
  clear dependent d1.
  intros i d1 (Hi & Hf1 & Hh1 & Hs1 & Hle1). split; [lia|].
  pose proof (length_frame _ _ _ _ Hf1) as Hl1. unfold hi in *. wp.
  2:{ split; [done|]. by replace a with (a + i + 1) at 1 by lia. }
  wp_swap d2 Hx. pose proof Hx as (K & Hp2 & Hl2 & _). apply ok_bind.
  eapply ok_mono.
  { apply (siftDown_ok 0 i a); [lia..|].
    intros j c ? ? ?. rewrite !K. repeat case_decide; try lia.
    apply Hh1; [lia|done|lia]. }
  intros _ d3 [Hf3 Hh3]. wp.
  pose proof Hf3 as (Hp3 & Hout3 & Hin3).
  assert (Hroot : ∀ j, a ≤ j ≤ a + i → kat d1 j ≤ kat d1 a).
  { intros j ?. replace j with (a + (j - a)) by lia.
    apply (heap_root_max d1 a (i + 1)); [done|lia]. }
  assert (Hlow2 : ∀ v, (∀ j, a ≤ j ≤ a + i → kat d1 j ≤ v) →
                       ∀ j, a + 0 ≤ j < a + i → kat d3 j ≤ v).
  { intros v Hv. apply (Hin3 (λ x, x ≤ v)). intros j ?. rewrite K.
    repeat case_decide; apply Hv; lia. }
  split; [|lia]. split_and!; [lia..| | | |].
  - eapply frame_trans; [done|]. eapply frame_trans.
    + apply (frame_exchanged a b a (a + i)); [lia..|done].
    + eapply frame_mono; [| |done]; lia.
  - by replace (i - 1 + 1) with i by lia.
  - intros j k ? ? ?. rewrite !Hout3 by lia. rewrite !K.
    repeat case_decide; try lia.
    + apply Hle1; lia.
    + apply Hs1; lia.
  - intros j k ? ?. rewrite (Hout3 k) by lia. rewrite (K k).
    repeat case_decide; try lia.
    + apply Hlow2; [|lia]. apply Hroot.
    + apply Hlow2; [|lia]. intros j' ?. apply Hle1; lia.
Qed.

(** ** Quicksort *)

Lemma sorted_range_frame_disjoint a b x y d d' :
  frame x y d d' → b ≤ x ∨ y ≤ a → sorted_range d a b → sorted_range d' a b.
Proof.
  intros (_ & Hout & _) ? Hs i j ? ? ?. rewrite !Hout by lia. by apply Hs.
Qed.

Lemma sorted_range_join a b mlo mhi p d :
  a ≤ mlo → mlo < mhi → mhi ≤ b →
  sorted_range d a mlo → sorted_range d mhi b →
  (∀ i, a ≤ i < mlo → kat d i ≤ p) →
  (∀ i, mlo ≤ i < mhi → kat d i = p) →
  (∀ i, mhi ≤ i < b → p ≤ kat d i) →
  sorted_range d a b.
Proof.
  intros ? ? ? Hs1 Hs2 Hlow Heq Hhigh i j ? ? ?.
  destruct (decide (j < mlo)); [apply Hs1; lia|].
  destruct (decide (mhi ≤ i)); [apply Hs2; lia|].
  assert (kat d i ≤ p).
  { destruct (decide (i < mlo)); [apply Hlow; lia|].
    rewrite Heq by lia. done. }
  assert (p ≤ kat d j).
  { destruct (decide (mhi ≤ j)); [apply Hhigh; lia|].
    rewrite Heq by lia. done. }
  lia.
Qed.

(** The two calls of [quickSort] after [doPivot], in either order. *)
Lemma sorted_range_parts a b mlo mhi d1 d2 d3 x1 y1 x2 y2 :
  pivoted a b d1 (mlo, mhi) →
  (x1 = a ∧ y1 = mlo ∧ x2 = mhi ∧ y2 = b) ∨
  (x1 = mhi ∧ y1 = b ∧ x2 = a ∧ y2 = mlo) →
  frame x1 y1 d1 d2 → sorted_range d2 x1 y1 →
  frame x2 y2 d2 d3 → sorted_range d3 x2 y2 →
  frame a b d1 d3 ∧ sorted_range d3 a b.
Proof.
  intros (? & ? & ? & Hlow & Heq & Hhigh) Hxy Hf2 Hs2 Hf3 Hs3.
  assert (Hf : frame a b d1 d3).
  { destruct Hxy as [(-> & -> & -> & ->)|(-> & -> & -> & ->)];
      (eapply frame_trans; (eapply frame_mono; [| |done]); lia). }
  split; [done|].
  pose proof Hf2 as (_ & Hout2 & Hin2). pose proof Hf3 as (_ & Hout3 & Hin3).
  assert (Hp : kat d3 mlo = kat d1 mlo).
  { rewrite Hout3, Hout2 by lia. done. }
  apply (sorted_range_join a b mlo mhi (kat d1 mlo)); try done.
  - destruct Hxy as [(-> & -> & -> & ->)|(-> & -> & -> & ->)]; [|done].
    apply (sorted_range_frame_disjoint _ _ _ _ _ _ Hf3); [lia|done].
  - destruct Hxy as [(-> & -> & -> & ->)|(-> & -> & -> & ->)]; [done|].
    apply (sorted_range_frame_disjoint _ _ _ _ _ _ Hf3); [lia|done].
  - destruct Hxy as [(-> & -> & -> & ->)|(-> & -> & -> & ->)].
    + intros i ?. rewrite Hout3 by lia.
      by apply (Hin2 (λ v, v ≤ kat d1 mlo)).
    + apply (Hin3 (λ v, v ≤ kat d1 mlo)). intros i ?.
      rewrite Hout2 by lia. by apply Hlow.
  - intros i ?. rewrite Hout3, Hout2 by lia. by apply Heq.
  - destruct Hxy as [(-> & -> & -> & ->)|(-> & -> & -> & ->)].
    + apply (Hin3 (λ v, kat d1 mlo ≤ v)). intros i ?.
      rewrite Hout2 by lia. by apply Hhigh.
    + intros i ?. rewrite Hout3 by lia.
      by apply (Hin2 (λ v, kat d1 mlo ≤ v)).
Qed.

Lemma quickSort_ok fuel a b maxDepth d :
  0 ≤ a → a ≤ b → b ≤ Z.of_nat (length d) → b - a < Z.of_nat fuel →
  ok (quickSort data fuel a b maxDepth) d (λ _ d',
    frame a b d d' ∧ sorted_range d' a b ∧ (b - a ≤ 6 → same_order d d')).
Proof.
  revert a b maxDepth d.
  induction fuel as [|fuel IH]; intros a b maxDepth d Ha Hab Hb Hfuel.
  { lia. }
  cbn [quickSort]. destruct (Z.ltb_spec 12 (b - a)).
  - destruct (maxDepth =? 0).
    { eapply ok_mono; [apply heapSort_ok; lia|]. intros _ d' [? ?].
      split_and!; [done..|lia]. }
    apply ok_bind. eapply ok_mono; [apply doPivot_ok; lia|].
    intros [mlo mhi] d1 [Hf1 Hpiv].
    pose proof (length_frame _ _ _ _ Hf1) as Hl1.
    pose proof Hpiv as (? & ? & ? & _).
    destruct (Z.ltb_spec (mlo - a) (b - mhi)).
    + apply ok_bind. eapply ok_mono; [apply IH; lia|].
      intros _ d2 (Hf2 & Hs2 & _).
      pose proof (length_frame _ _ _ _ Hf2) as Hl2.
      eapply ok_mono; [apply IH; lia|].
      intros _ d3 (Hf3 & Hs3 & _).
      destruct (sorted_range_parts a b mlo mhi d1 d2 d3 a mlo mhi b)
        as [Hf Hs]; [done|by left|done..|].
      split_and!; [by eapply frame_trans|done|lia].
    + apply ok_bind. eapply ok_mono; [apply IH; lia|].
      intros _ d2 (Hf2 & Hs2 & _).
      pose proof (length_frame _ _ _ _ Hf2) as Hl2.
      eapply ok_mono; [apply IH; lia|].
      intros _ d3 (Hf3 & Hs3 & _).
      destruct (sorted_range_parts a b mlo mhi d1 d2 d3 mhi b a mlo)
        as [Hf Hs]; [done|by right|done..|].
      split_and!; [by eapply frame_trans|done|lia].
  - destruct (Z.ltb_spec 1 (b - a)).
    2:{ apply ok_ret. split_and!; [apply frame_refl| |done].
        intros i j ? ? ?. by replace j with i by lia. }
    apply ok_bind.
    apply (ok_mono _ _ (λ _ d', frame a b d d' ∧
                                (b - a ≤ 6 → same_order d d'))).
    { apply (ok_loop (λ i d', a + 6 ≤ i ∧ frame a b d d' ∧
                              (b - a ≤ 6 → same_order d d'))
                     (λ i, Z.max 0 (b - i))).
      { split_and!; [lia|apply frame_refl|done]. }
      { lia. }
      intros i d1 (Hi & Hf1 & Ho1). split; [lia|].
      pose proof (length_frame _ _ _ _ Hf1) as Hl1. wp.
      - wp_swap d2 Hx. wp. split; [|lia]. split_and!; [lia| |lia].
        eapply frame_trans; [done|].
        by apply (frame_exchanged a b i (i - 6)); [lia..|].
      - split; [|lia]. split_and!; [lia|done..].
      - done. }
    intros _ d1 [Hf1 Ho1]. pose proof (length_frame _ _ _ _ Hf1) as Hl1.
    eapply ok_mono; [apply insertionSort_ok; lia|].
    intros _ d2 (Hf2 & Hs2 & Ho2).
    split_and!; [by eapply frame_trans|done|].
    intros ?. eapply same_order_trans; eauto.
Qed.

(** [sort.Sort] returns, with the elements rearranged into ascending
    order of their keys; a slice of at most six elements is sorted by
    insertion sort alone, which keeps equal keys in order. *)
Theorem sort_Sort_ok d :
  ∃ d', sort_Sort data d = Some d' ∧ Permutation d d' ∧
        sorted_range d' 0 (Z.of_nat (length d')) ∧
        (length d ≤ 6 → same_order d d')%nat.
Proof.
  unfold sort_Sort. rewrite Len_slice.
  destruct (quickSort_ok (Z.to_nat (Z.of_nat (length d)) + 1) 0
              (Z.of_nat (length d)) (maxDepth (Z.of_nat (length d))) d)
    as ([] & d' & -> & Hf & Hs & Ho); [lia..|].
  exists d'. rewrite (length_frame _ _ _ _ Hf).
  split_and!; [done|apply Hf|done|]. intros ?. apply Ho. lia.
Qed.
End hoare.

(** * The library routines on examples *)

Example Unix_2020_09_19 : Unix (time_Parse "2020-09-19").1 = 1600473600.
Proof. reflexivity. Qed.

Example Unix_1970_01_01 : Unix (time_Parse "1970-01-01").1 = 0.
Proof. reflexivity. Qed.

Example Unix_leap_day : Unix (time_Parse "2020-02-29").1 = 1582934400.
Proof. reflexivity. Qed.

Example Unix_year_zero : Unix (time_Parse "0000-01-01").1 = -62167219200.
Proof. reflexivity. Qed.

Example time_Parse_day_out_of_range :
  time_Parse "2021-02-29"
  = (Time_zero, Some "parsing time: cannot parse"%string).
Proof. reflexivity. Qed.

Example time_Parse_extra_text :
  (time_Parse "2020-09-19T10:00").1 = Time_zero.
Proof. reflexivity. Qed.

Example Unix_zero_Time : Unix Time_zero = -62135596800.
Proof. reflexivity. Qed.

Example strings_Split_dotted :
  strings_Split "blog/a.b/post.v2.md" "."
  = ["blog/a"; "b/post"; "v2"; "md"]%string.
Proof. reflexivity. Qed.

Example strings_Split_no_separator :
  strings_Split "blog/post" "." = ["blog/post"]%string.
Proof. reflexivity. Qed.

Example bytes_SplitN_three :
  bytes_SplitN "---a---b---c" "---" 3 = [EmptyString; "a"; "b---c"]%string.
Proof. reflexivity. Qed.

(** [sort.Ints], as [sort.Sort] on a slice of numbers. *)
Example sort_Sort_numbers :
  sort_Sort
    {| Len := λ d : list Z, Z.of_nat (length d);
       Less := λ d i j, x ← get d i; y ← get d j; Some (x <? y);
       Swap := λ d i j,
         x ← get d i; y ← get d j; Some (set (set d i y) j x) |}
    [5; 3; 9; 1; 2; 8; 7; 6; 4; 0; 11; 10; 15; 14; 13; 12; 5; 5; 1]
  = Some [0; 1; 1; 2; 3; 4; 5; 5; 5; 6; 7; 8; 9; 10; 11; 12; 13; 14; 15].
Proof. reflexivity. Qed.

(** * [Posts] under [sort.Sort(sort.Reverse(_))] *)

Lemma get_nat {T : Type} (d : list T) (i : nat) : get d (Z.of_nat i) = d !! i.
Proof.
  unfold get. destruct (Z.ltb_spec (Z.of_nat i) 0); [lia|].
  by rewrite Nat2Z.id.
Qed.

Lemma Posts_Less_slice (d : Posts) i j :
  Less (sort_Reverse Posts_Interface) d i j =
    x ← get d i; y ← get d j; Some (bool_decide (post_key x < post_key y)).
Proof.
  simpl. unfold Posts_Less. destruct (get d i) as [x|], (get d j) as [y|];
    simpl; try done.
  f_equal. unfold post_key, postUnix.
  destruct (Z.ltb_spec (Unix (time_Parse (Date y)).1)
                       (Unix (time_Parse (Date x)).1));
    case_bool_decide; lia || done.
Qed.

Lemma Posts_Swap_slice (d : Posts) i j :
  Swap (sort_Reverse Posts_Interface) d i j =
    x ← get d i; y ← get d j; Some (set (set d i y) j x).
Proof. done. Qed.

(** The sort step of [Build] never panics; it rearranges the posts into
    newest-first order, and up to six posts keep the order of equal
    dates. *)
Lemma Posts_sort_ok (loaded : Posts) :
  ∃ built, sort_Sort (sort_Reverse Posts_Interface) loaded = Some built ∧
    Permutation loaded built ∧
    (∀ (i j : nat) p q, (i ≤ j)%nat → built !! i = Some p →
                        built !! j = Some q → postUnix q ≤ postUnix p) ∧
    ((length loaded ≤ 6)%nat → same_order post_key loaded built).
Proof.
  destruct (sort_Sort_ok post_key (sort_Reverse Posts_Interface)
              (λ _, eq_refl) Posts_Less_slice Posts_Swap_slice loaded)
    as (built & Hsort & Hperm & Hsorted & Hstable).
  exists built. split_and!; [done..| |done].
  intros i j p q Hij Hp Hq.
  pose proof (lookup_lt_Some _ _ _ Hq).
  specialize (Hsorted (Z.of_nat i) (Z.of_nat j)).
  unfold kat in Hsorted. rewrite !get_nat, Hp, Hq in Hsorted. simpl in Hsorted.
  unfold post_key in Hsorted. lia.
Qed.

Lemma same_order_keeps_date_order (loaded built : Posts) :
  same_order post_key loaded built → keeps_date_order loaded built.
Proof.
  intros H date.
  assert (Hf : ∀ l : Posts,
    filter (λ p, Date p = date) l =
    filter (λ p, Date p = date)
      (filter (λ p, post_key p = - Unix (time_Parse date).1) l)).
  { intros l. rewrite list_filter_filter. apply list_filter_iff.
    intros p. split; [|tauto]. intros <-. done. }
  rewrite (Hf built), (Hf loaded). by rewrite H.
Qed.

(** * The walk over the content files *)

Lemma bind_Ok {A B} (m : result A) (k : A → result B) b :
  m ≫= k = Ok b → ∃ a, m = Ok a ∧ k a = Ok b.
Proof. destruct m; simpl; [eauto|done..]. Qed.

Lemma bind_failed {A B} (m : result A) (k : A → result B) :
  failed m → failed (m ≫= k).
Proof. by destruct m. Qed.

Lemma failed_not_Ok {A} (r : result A) : failed r ↔ ∀ a, r ≠ Ok a.
Proof.
  destruct r; simpl; split; try done.
  - intros H. by destruct (H a).
Qed.

Lemma strings_Split_dot (path : string) :
  strings_Split path "." !! 0%nat = Some (slug path).
Proof.
  unfold strings_Split, slug. simpl String.eqb. cbv iota.
  replace (String.length path + 1)%nat with (S (String.length path)) by lia.
  destruct path as [|c path]; [done|].
  cbn [String.length genSplit].
  by destruct (cut (String c path) ".") as [[? ?]|].
Qed.

Lemma file_paths_cons e entries :
  file_paths (e :: entries) = file_paths [e] ++ file_paths entries.
Proof. unfold file_paths. simpl. by rewrite app_nil_r. Qed.

Section walk.
Variable yaml : string → postFM → postFM * option error.
Variable render : string → string.

(** The post that the walk makes of a file. *)
Lemma walkFn_file posts path content remaining fm :
  front_Unmarshal yaml content
      {| fm_Title := EmptyString; fm_Date := EmptyString |}
    = Ok (remaining, None, fm) →
  walkFn yaml render posts (File path (Contents content)) =
    Ok (posts ++ [{| Title := fm_Title fm;
                     Date := fm_Date fm;
                     Link := slug path;
                     Body := remaining;
                     BodyHTML := render remaining;
                     Summary := EmptyString |}]).
Proof. intros H. simpl. rewrite H. simpl. by rewrite strings_Split_dot. Qed.

Lemma walkFn_Ok posts e posts' :
  walkFn yaml render posts e = Ok posts' →
  (posts' = posts ∧ file_paths [e] = []) ∨
  ∃ path content remaining fm,
    e = File path (Contents content) ∧
    front_Unmarshal yaml content
      {| fm_Title := EmptyString; fm_Date := EmptyString |}
      = Ok (remaining, None, fm) ∧
    posts' = posts ++ [{| Title := fm_Title fm;
                          Date := fm_Date fm;
                          Link := slug path;
                          Body := remaining;
                          BodyHTML := render remaining;
                          Summary := EmptyString |}].
Proof.
  destruct e as [path err|path|path [err|err|content]]; simpl; try done.
  { intros [= <-]. by left. }
  intros H. right.
  destruct (front_Unmarshal yaml content _)
    as [[[remaining [err|]] fm]| |] eqn:E; simpl in H; try done.
  rewrite strings_Split_dot in H. simpl in H. injection H as <-.
  by exists path, content, remaining, fm.
Qed.

(** A call that fails does so whatever posts were made before. *)
Lemma walkFn_failed posts posts' e :
  failed (walkFn yaml render posts e) →
  failed (walkFn yaml render posts' e).
Proof.
  destruct e as [path err|path|path [err|err|content]]; simpl; try done.
  destruct (front_Unmarshal yaml content _) as [[[remaining [err|]] fm]| |];
    simpl; try done.
  rewrite strings_Split_dot. done.
Qed.

Lemma filepath_Walk_failed entries posts e :
  e ∈ entries → failed (walkFn yaml render [] e) →
  failed (filepath_Walk yaml render entries posts).
Proof.
  intros Hin Hf. revert posts.
  induction entries as [|e' entries IH]; intros posts;
    [by apply elem_of_nil in Hin|].
  simpl. apply elem_of_cons in Hin as [<-|Hin].
  - apply bind_failed. by eapply walkFn_failed.
  - destruct (walkFn yaml render posts e'); simpl; [|done..]. by apply IH.
Qed.

(** The posts of a walk that succeeds: one for each file, in the order of
    the walk, after the posts there were. *)
Lemma filepath_Walk_Ok entries posts posts' :
  filepath_Walk yaml render entries posts = Ok posts' →
  ∃ new, posts' = posts ++ new ∧
         Link <$> new = slug <$> file_paths entries ∧
         Forall (λ p, Summary p = EmptyString ∧
                      BodyHTML p = render (Body p)) new.
Proof.
  revert posts. induction entries as [|e entries IH]; intros posts H;
    simpl in H.
  { injection H as <-. exists []. by rewrite app_nil_r. }
  apply bind_Ok in H as (posts1 & H1 & H2).
  destruct (IH _ H2) as (new & -> & Hl & Hf).
  apply walkFn_Ok in H1
    as [[-> He]|(path & content & remaining & fm & -> & _ & ->)].
  - exists new. split_and!; [done| |done].
    by rewrite file_paths_cons, He.
  - eexists (_ :: new). split_and!.
    + by rewrite <-app_assoc.
    + rewrite file_paths_cons, !fmap_cons, Hl. done.
    + by constructor.
Qed.

Lemma foldl_addItem posts rss json :
  Feed_Items (foldl addItem (rss, json) posts).1 =
    Feed_Items rss ++ (feeds_Item_of <$> posts) ∧
  JFeed_Items (foldl addItem (rss, json) posts).2 =
    JFeed_Items json ++ (jsonfeed_Item_of <$> posts).
Proof.
  revert rss json. induction posts as [|p posts IH]; intros rss json; simpl.
  { by rewrite !app_nil_r. }
  destruct (IH
    {| Feed_Title := Feed_Title rss;
       Feed_Link_Href := Feed_Link_Href rss;
       Feed_Description := Feed_Description rss;
       Feed_Author_Name := Feed_Author_Name rss;
       Feed_Author_Email := Feed_Author_Email rss;
       Feed_Created := Feed_Created rss;
       Feed_Copyright := Feed_Copyright rss;
       Feed_Items := Feed_Items rss ++ [feeds_Item_of p] |}
    {| JFeed_Version := JFeed_Version json;
       JFeed_Title := JFeed_Title json;
       JFeed_HomePageURL := JFeed_HomePageURL json;
       JFeed_FeedURL := JFeed_FeedURL json;
       JFeed_Description := JFeed_Description json;
       JFeed_UserComment := JFeed_UserComment json;
       JFeed_Icon := JFeed_Icon json;
       JFeed_Favicon := JFeed_Favicon json;
       JFeed_Author_Name := JFeed_Author_Name json;
       JFeed_Author_Avatar := JFeed_Author_Avatar json;
       JFeed_Items := JFeed_Items json ++ [jsonfeed_Item_of p] |})
    as [-> ->].
  simpl. by rewrite <-!app_assoc.
Qed.

(** What a [Build] that succeeds went through. *)
Lemma Build_Ok w s :
  Build yaml render w = Ok s →
  ∃ loaded,
    filepath_Walk yaml render (blog_walk w) [] = Ok loaded ∧
    sort_Sort (sort_Reverse Posts_Interface) loaded = Some (Site_Posts s) ∧
    Feed_Items (rssFeed s) = feeds_Item_of <$> Site_Posts s ∧
    JFeed_Items (jsonFeed s) = jsonfeed_Item_of <$> Site_Posts s.
Proof.
  unfold Build. intros H.
  do 8 (apply bind_Ok in H as (? & _ & H)).
  apply bind_Ok in H as (loaded & Hwalk & H).
  apply bind_Ok in H as (built & Hsort & H).
  apply bind_Ok in H as (resumeData & _ & H).
  exists loaded. split; [done|].
  destruct (sort_Sort _ loaded) as [built'|] eqn:E; [|done].
  injection Hsort as ->.
  match type of H with
  | context [foldl addItem (?rss, ?json) built] =>
      pose proof (foldl_addItem built rss json) as [Hr Hj];
      destruct (foldl addItem (rss, json) built) as [rss' json']
  end.
  injection H as <-. simpl in *. done.
Qed.
End walk.

(** * What a build goes through *)

Lemma Build_index yaml render w s :
  Build yaml render w = Ok s →
  ∃ loaded,
    filepath_Walk yaml render (blog_walk w) [] = Ok loaded ∧
    Permutation loaded (Site_Posts s) ∧
    (∀ (i j : nat) p q, (i ≤ j)%nat → Site_Posts s !! i = Some p →
                        Site_Posts s !! j = Some q → postUnix q ≤ postUnix p) ∧
    ((length loaded ≤ 6)%nat → keeps_date_order loaded (Site_Posts s)).
Proof.
  intros (loaded & Hwalk & Hsort & _)%Build_Ok. exists loaded.
  destruct (Posts_sort_ok loaded) as (built & Hsort' & Hperm & Hs & Hst).
  rewrite Hsort in Hsort'. injection Hsort' as <-.
  split_and!; [done..|]. intros ?. by apply same_order_keeps_date_order, Hst.
Qed.

Ltac in_keys := unfold required_keys; rewrite !elem_of_cons; tauto.

Lemma Build_locales w l tp :
  locale_file w "locales/en.json" = inr (Loads l) →
  locale_file w "locales/tp.json" = inr (Loads tp) →
  foldl (λ r lang,
      t ← r;
      fin ← match locale_file w
                    (filepath_Join "locales" (lang +:+ ".json")) with
            | inl err => Err err
            | inr fin => Ok fin
            end;
      LoadLocale t lang fin) (Ok {| locales := ∅ |}) ["en"; "tp"]%string
  = Ok {| locales := <["tp"%string := tp]> (<["en"%string := l]> ∅) |}.
Proof.
  intros Hen Htp. simpl.
  change (filepath_Join "locales" ("en" +:+ ".json"))
    with "locales/en.json"%string.
  change (filepath_Join "locales" ("tp" +:+ ".json"))
    with "locales/tp.json"%string.
  rewrite Hen. simpl. by rewrite Htp.
Qed.


Lemma main_not_serving yaml render w :
  failed (Build yaml render w) → ¬ serves (main yaml render w).
Proof. unfold main. destruct (Build yaml render w); simpl; tauto. Qed.

Lemma Build_walk_failed yaml render w :
  failed (filepath_Walk yaml render (blog_walk w) []) →
  failed (Build yaml render w).
Proof.
  intros Hf. unfold Build.
  do 8 (match goal with
        | |- failed (?m ≫= _) => destruct m; simpl; [|done..]
        end).
  by apply bind_failed.
Qed.

Lemma Build_loaded_posts yaml render w s :
  Build yaml render w = Ok s →
  Forall (λ p, Summary p = EmptyString ∧ BodyHTML p = render (Body p))
         (Site_Posts s).
Proof.
  intros (loaded & Hwalk & Hperm & _)%Build_index.
  apply filepath_Walk_Ok in Hwalk as (new & -> & _ & Hf). simpl in Hperm.
  by rewrite <-Hperm.
Qed.


(** * The walk, entry by entry *)

Section walk_entries.

Variable yaml : string → postFM → postFM * option error.

Variable render : string → string.

Lemma walkFn_accepted posts e :
  entry_accepted yaml e →
  walkFn yaml render posts e =
    Ok (posts ++ option_list (post_of yaml render e)).
Proof.
  destruct e as [path err|path|path [err|err|content]]; simpl; try done.
  { intros _. by rewrite app_nil_r. }
  unfold header_rejected, no_header.
  destruct (front_Unmarshal yaml content _)
    as [[[remaining [err|]] fm]| |]; simpl; try tauto.
  intros _. by rewrite strings_Split_dot.
Qed.

Lemma walkFn_Ok_accepted posts e posts' :
  walkFn yaml render posts e = Ok posts' → entry_accepted yaml e.
Proof.
  destruct e as [path err|path|path [err|err|content]]; simpl; try done.
  unfold header_rejected.
  destruct (front_Unmarshal yaml content _)
    as [[[remaining [err|]] fm]| |]; simpl; try done. tauto.
Qed.

(** A call that fails gives the same error or panic whatever posts were
    made before. *)
Lemma walkFn_failed_eq posts e :
  failed (walkFn yaml render [] e) →
  walkFn yaml render posts e = walkFn yaml render [] e.
Proof.
  destruct e as [path err|path|path [err|err|content]]; simpl; try done.
  destruct (front_Unmarshal yaml content _)
    as [[[remaining [err|]] fm]| |]; simpl; try done.
  by rewrite strings_Split_dot.
Qed.

Lemma filepath_Walk_app entries entries' posts :
  filepath_Walk yaml render (entries ++ entries') posts =
    filepath_Walk yaml render entries posts
      ≫= filepath_Walk yaml render entries'.
Proof.
  revert posts. induction entries as [|e entries IH]; intros posts; [done|].
  simpl. destruct (walkFn yaml render posts e); simpl; [|done..]. apply IH.
Qed.

(** The posts of a walk whose entries are all accepted: the posts of the
    files, in the order of the walk. *)
Lemma filepath_Walk_accepted entries posts :
  Forall (entry_accepted yaml) entries →
  filepath_Walk yaml render entries posts =
    Ok (posts ++ omap (post_of yaml render) entries).
Proof.
  intros H. revert posts.
  induction H as [|e entries He _ IH]; intros posts; simpl.
  { by rewrite app_nil_r. }
  rewrite (walkFn_accepted _ _ He). simpl. rewrite IH, <-app_assoc.
  by destruct (post_of yaml render e).
Qed.

Lemma filepath_Walk_Ok_accepted entries posts posts' :
  filepath_Walk yaml render entries posts = Ok posts' →
  Forall (entry_accepted yaml) entries.
Proof.
  revert posts. induction entries as [|e entries IH]; intros posts H;
    [constructor|].
  simpl in H. apply bind_Ok in H as (posts1 & H1 & H2). constructor.
  - by eapply walkFn_Ok_accepted.
  - by eapply IH.
Qed.

(** The walk stops at the first call that fails, with what that call
    gives. *)
Lemma filepath_Walk_first_failure before e after posts :
  Forall (entry_accepted yaml) before →
  failed (walkFn yaml render [] e) →
  filepath_Walk yaml render (before ++ e :: after) posts =
    walkFn yaml render [] e.
Proof.
  intros Hb Hf. rewrite filepath_Walk_app, (filepath_Walk_accepted _ _ Hb).
  simpl. rewrite (walkFn_failed_eq _ _ Hf).
  by destruct (walkFn yaml render [] e).
Qed.

(** [Build] once the locales are loaded and the feeds are set up. *)
Lemma Build_ready w :
  locales_ready w →
  ∃ rss json t,
    Build yaml render w =
      posts ← filepath_Walk yaml render (blog_walk w) [];
      posts ← match sort_Sort (sort_Reverse Posts_Interface) posts with
              | Some posts => Ok posts
              | None => Panic "index out of range"
              end;
      resumeData ← match resume_file w with
                   | inl err => Err err
                   | inr content => Ok content
                   end;
      let '(rss, json) := foldl addItem (rss, json) posts in
      Ok {| Site_Posts := posts;
            Resume := render resumeData;
            rssFeed := rss;
            jsonFeed := json;
            Site_t := t |}.
Proof.
  intros (l & tp & Hen & Htp & Hkeys). unfold Build.
  rewrite (Build_locales w l tp Hen Htp). simpl.
  rewrite lookup_insert_ne by done. rewrite lookup_insert_eq. simpl.
  assert (Hv : ∀ group key, (group, key) ∈ required_keys →
                            ∃ v, locale_Value l group key = Ok v).
  { intros group key [v Hv]%Hkeys. exists v. unfold locale_Value.
    by rewrite Hv. }
  destruct (Hv "blog" "title")%string as [? ->]; [in_keys|].
  destruct (Hv "blog" "description")%string as [? ->]; [in_keys|].
  destruct (Hv "meta" "rss_copyright")%string as [? ->]; [in_keys|].
  destruct (Hv "meta" "json_feed")%string as [? ->]; [in_keys|].
  destruct (Hv "header" "name")%string as [? ->]; [in_keys|].
  simpl. eauto.
Qed.


End walk_entries.

Lemma world_of_ready entries : locales_ready (world_of entries).
Proof.
  exists en_locale, en_locale. split_and!; [done..|].
  intros group key. unfold required_keys.
  rewrite !elem_of_cons, elem_of_nil.
  intros [Hk|[Hk|[Hk|[Hk|[Hk|[]]]]]]; injection Hk as -> ->;
    vm_compute; eauto.
Qed.

(** * The feeds around the items *)



(** * The first dot of a path *)

Lemma cut_dot_Some s before after :
  cut s "." = Some (before, after) →
  s = before +:+ "." +:+ after ∧ cut before "." = None.
Proof.
  revert before. induction s as [|c s IH]; intros before; [done|].
  cbn [cut hasPrefix].
  destruct (Ascii.eqb_spec "." c) as [<-|Hc]; cbn [andb].
  { intros [= <- <-]. done. }
  destruct (cut s ".") as [[b a]|]; [|done].
  intros [= <- <-]. destruct (IH b eq_refl) as [-> Hb]. split; [done|].
  cbn [cut hasPrefix]. destruct (Ascii.eqb_spec "." c); [done|].
  cbn [andb]. by rewrite Hb.
Qed.

Lemma cut_dot_None stem ext : cut (stem +:+ "." +:+ ext) "." ≠ None.
Proof.
  induction stem as [|c stem IH]; [done|].
  change (String c stem +:+ "." +:+ ext)
    with (String c (stem +:+ "." +:+ ext)).
  cbn [cut hasPrefix]. destruct (Ascii.eqb "." c); cbn [andb]; [done|].
  by destruct (cut (stem +:+ "." +:+ ext) ".") as [[? ?]|].
Qed.

Lemma slug_shape path :
  (∀ stem ext, slug path ≠ stem +:+ "." +:+ ext) ∧
  (path = slug path ∨ ∃ rest, path = slug path +:+ "." +:+ rest).
Proof.
  unfold slug. destruct (cut path ".") as [[before after]|] eqn:E.
  - apply cut_dot_Some in E as [-> Hb]. split; [|eauto].
    intros stem ext ->. by apply (cut_dot_None stem ext).
  - split; [|by left]. intros stem ext ->. by apply (cut_dot_None stem ext).
Qed.

(** * Indexes in range *)

Lemma is_Some_get {T : Type} (d : list T) i :
  is_Some (get d i) ↔ 0 ≤ i < Z.of_nat (length d).
Proof.
  split; [intros [x Hx]; by eapply get_Some|apply get_in_range].
Qed.

(** * The days that [Less] compares *)

Lemma isDigit_digitVal c : isDigit c = true → 0 ≤ digitVal c ≤ 9.
Proof.
  unfold isDigit, digitVal. cbv zeta.
  intros [H1 H2]%andb_prop.
  apply Nat.leb_le in H1. apply Nat.leb_le in H2. lia.
Qed.

Lemma getnum_range s n rest : getnum s true = Some (n, rest) → 0 ≤ n ≤ 99.
Proof.
  destruct s as [|c0 [|c1 s]]; simpl; try done.
  - by destruct (isDigit c0).
  - destruct (isDigit c0) eqn:E0; [|done].
    destruct (isDigit c1) eqn:E1; [|done].
    intros [= <- <-].
    apply isDigit_digitVal in E0. apply isDigit_digitVal in E1. lia.
Qed.

Lemma getLongYear_range s n rest :
  getLongYear s = Some (n, rest) → 0 ≤ n ≤ 9999.
Proof.
  destruct s as [|a [|b [|c [|d s]]]]; simpl; try done.
  destruct (isDigit a) eqn:Ea; [|done]. destruct (isDigit b) eqn:Eb; [|done].
  destruct (isDigit c) eqn:Ec; [|done]. destruct (isDigit d) eqn:Ed; [|done].
  simpl. intros [= <- <-].
  apply isDigit_digitVal in Ea. apply isDigit_digitVal in Eb.
  apply isDigit_digitVal in Ec. apply isDigit_digitVal in Ed. lia.
Qed.

Local Ltac no_fields := split; [done|by intros (? & ? & ? & ? & _)].

(** What [time.Parse] accepts: the fields that the layout reads, when
    the month is one of the twelve and the day is one of the month. *)
Lemma parseDate_dateFields value t :
  parseDate value = Some t ↔
  ∃ y m d, dateFields value = Some (y, m, d) ∧ 0 ≤ y ≤ 9999 ∧
           1 ≤ m ≤ 12 ∧ 1 ≤ d ≤ daysIn m y ∧ t = time_Date y m d.
Proof.
  unfold parseDate, dateFields.
  destruct (getLongYear value) as [[y v1]|] eqn:Ey; simpl; [|no_fields].
  apply getLongYear_range in Ey.
  destruct (skipDash v1) as [v2|]; simpl; [|no_fields].
  destruct (getnum v2 true) as [[m v3]|]; simpl; [|no_fields].
  destruct (skipDash v3) as [v4|]; simpl; [|destruct (_ || _); no_fields].
  destruct (getnum v4 true) as [[d v5]|]; simpl;
    [|destruct (_ || _); no_fields].
  destruct (String.eqb v5 EmptyString); simpl;
    [|destruct (_ || _); no_fields].
  destruct (Z.leb_spec m 0), (Z.ltb_spec 12 m); simpl;
    try (split; [done|intros (? & ? & ? & [= <- <- <-] & ?); lia]).
  destruct (Z.ltb_spec d 1), (Z.ltb_spec (daysIn m y) d); simpl;
    try (split; [done|intros (? & ? & ? & [= <- <- <-] & ?); lia]).
  split.
  - intros [= <-]. exists y, m, d. split_and!; done || lia.
  - by intros (? & ? & ? & [= <- <- <-] & _ & _ & _ & ->).
Qed.

(** The days from January 1 of the year 1 to the day. *)
Lemma time_Date_sec y m d :
  1 ≤ m ≤ 12 →
  sec (time_Date y m d) =
    (365 * (y - 1) + (y - 1) `div` 4 - (y - 1) `div` 100 + (y - 1) `div` 400
     + default 0 (get daysBefore (m - 1))
     + (if isLeap y && (3 <=? m) then 1 else 0) + (d - 1)) * 86400.
Proof.
  intros Hm. unfold time_Date, daysPer400Years, daysPer100Years,
    daysPer4Years, secondsPerDay. cbv zeta.
  destruct (isLeap y && (3 <=? m)); simpl sec; f_equal;
    Z.to_euclidean_division_equations; lia.
Qed.

Lemma isLeap_spec y :
  0 ≤ y →
  365 * y + y `div` 4 - y `div` 100 + y `div` 400 =
  365 * (y - 1) + (y - 1) `div` 4 - (y - 1) `div` 100 + (y - 1) `div` 400
  + (if isLeap y then 366 else 365).
Proof.
  intros Hy. unfold isLeap. rewrite !Z.rem_mod_nonneg by lia.
  destruct (Z.eqb_spec (y `mod` 4) 0), (Z.eqb_spec (y `mod` 100) 0),
    (Z.eqb_spec (y `mod` 400) 0); simpl;
    Z.to_euclidean_division_equations; lia.
Qed.

Lemma year_days_mono y y' :
  0 ≤ y → y < y' →
  365 * y + y `div` 4 - y `div` 100 + y `div` 400 ≤
  365 * (y' - 1) + (y' - 1) `div` 4 - (y' - 1) `div` 100
  + (y' - 1) `div` 400.
Proof.
  intros Hy Hlt. replace y' with (y + 1 + (y' - y - 1)) by lia.
  assert (0 ≤ y' - y - 1) as Hk by lia. revert Hk.
  generalize (y' - y - 1). clear Hlt y'. intros k Hk.
  pattern k. apply natlike_ind; [| |done].
  - replace (y + 1 + 0 - 1) with y by lia. lia.
  - intros x Hx IH. replace (y + 1 + Z.succ x - 1) with (y + 1 + x) by lia.
    pose proof (isLeap_spec (y + 1 + x) ltac:(lia)) as E.
    replace (y + 1 + x - 1) with (y + x) in * by lia.
    destruct (isLeap (y + 1 + x)); lia.
Qed.

Lemma month_days m y :
  1 ≤ m ≤ 12 →
  ∃ b b', get daysBefore (m - 1) = Some b ∧ get daysBefore m = Some b' ∧
          0 ≤ b ∧ b' ≤ 365 ∧
          daysIn m y = b' - b + (if (m =? 2) && isLeap y then 1 else 0).
Proof.
  intros Hm.
  assert (m = 1 ∨ m = 2 ∨ m = 3 ∨ m = 4 ∨ m = 5 ∨ m = 6 ∨ m = 7 ∨ m = 8 ∨
          m = 9 ∨ m = 10 ∨ m = 11 ∨ m = 12) as Hc by lia.
  unfold daysIn.
  destruct Hc as [->|[->|[->|[->|[->|[->|[->|[->|[->|[->|[->| ->]]]]]]]]]]];
    destruct (isLeap y); simpl; eexists _, _;
    (split; [reflexivity|]; split; [reflexivity|]; lia).
Qed.

Lemma daysBefore_mono m m' b b' :
  1 ≤ m → m < m' → m' ≤ 12 →
  get daysBefore m = Some b → get daysBefore (m' - 1) = Some b' → b ≤ b'.
Proof.
  intros H1 H2 H3.
  assert (m = 1 ∨ m = 2 ∨ m = 3 ∨ m = 4 ∨ m = 5 ∨ m = 6 ∨ m = 7 ∨ m = 8 ∨
          m = 9 ∨ m = 10 ∨ m = 11) as Hc by lia.
  assert (m' = 2 ∨ m' = 3 ∨ m' = 4 ∨ m' = 5 ∨ m' = 6 ∨ m' = 7 ∨ m' = 8 ∨
          m' = 9 ∨ m' = 10 ∨ m' = 11 ∨ m' = 12) as Hc' by lia.
  destruct Hc as [->|[->|[->|[->|[->|[->|[->|[->|[->|[->| ->]]]]]]]]]];
    destruct Hc' as [->|[->|[->|[->|[->|[->|[->|[->|[->|[->| ->]]]]]]]]]];
    try lia; intros [= <-] [= <-]; lia.
Qed.

(** [time.Date] is increasing along the calendar. *)
Lemma time_Date_mono y m d y' m' d' :
  0 ≤ y → 1 ≤ m ≤ 12 → 1 ≤ d ≤ daysIn m y →
  0 ≤ y' → 1 ≤ m' ≤ 12 → 1 ≤ d' ≤ daysIn m' y' →
  earlier_day (y, m, d) (y', m', d') →
  sec (time_Date y m d) < sec (time_Date y' m' d').
Proof.
  intros Hy Hm Hd Hy' Hm' Hd' He.
  rewrite !time_Date_sec by done.
  destruct (month_days m y Hm) as (b & b1 & Eb & Eb1 & ? & ? & Ed).
  destruct (month_days m' y' Hm') as (c & c1 & Ec & Ec1 & ? & ? & Ed').
  rewrite Eb, Ec. simpl default.
  destruct He as [Hlt|[<- [Hlt|[<- Hlt]]]].
  - pose proof (year_days_mono y y' Hy Hlt).
    pose proof (isLeap_spec y Hy).
    destruct (isLeap y), (isLeap y'), (Z.eqb_spec m 2), (Z.leb_spec 3 m),
      (Z.leb_spec 3 m'); simpl in *; lia.
  - pose proof (daysBefore_mono m m' _ _ ltac:(lia) Hlt ltac:(lia) Eb1 Ec).
    destruct (isLeap y), (Z.eqb_spec m 2), (Z.leb_spec 3 m),
      (Z.leb_spec 3 m'); simpl in *; lia.
  - rewrite Eb in Ec. injection Ec as <-. lia.
Qed.

Lemma earlier_day_total a b : earlier_day a b ∨ a = b ∨ earlier_day b a.
Proof.
  destruct a as [[y m] d], b as [[y' m'] d']. unfold earlier_day.
  destruct (Z.lt_total y y') as [?|[->|?]]; [tauto| |tauto].
  destruct (Z.lt_total m m') as [?|[->|?]]; [tauto| |tauto].
  destruct (Z.lt_total d d') as [?|[->|?]]; tauto.
Qed.

Lemma dateParses_fields p :
  dateParses p ↔
  ∃ y m d, dateFields (Date p) = Some (y, m, d) ∧ 0 ≤ y ≤ 9999 ∧
           1 ≤ m ≤ 12 ∧ 1 ≤ d ≤ daysIn m y ∧
           postUnix p = sec (time_Date y m d) + internalToUnix.
Proof.
  unfold dateParses, postUnix, time_Parse, Unix.
  destruct (parseDate (Date p)) as [t|] eqn:E; simpl.
  - apply parseDate_dateFields in E as (y & m & d & ? & ? & ? & ? & ->).
    split; [|done]. intros _. by exists y, m, d.
  - split; [done|]. intros (y & m & d & H1 & H2 & H3 & H4 & _).
    assert (parseDate (Date p) = Some (time_Date y m d)) as E'.
    { apply parseDate_dateFields. by exists y, m, d. }
    congruence.
Qed.

(** * The posts of a build *)

(** The index holds the posts of the files of the walk. *)
Lemma Build_posts yaml render w s :
  Build yaml render w = Ok s →
  filepath_Walk yaml render (blog_walk w) []
    = Ok (omap (post_of yaml render) (blog_walk w)) ∧
  Permutation (omap (post_of yaml render) (blog_walk w)) (Site_Posts s).
Proof.
  intros (loaded & Hwalk & Hperm & _)%Build_index.
  pose proof (filepath_Walk_Ok_accepted _ _ _ _ _ Hwalk) as Hacc.
  pose proof (filepath_Walk_accepted yaml render _ [] Hacc) as Hwalk'.
  simpl in Hwalk'. rewrite Hwalk in Hwalk'. injection Hwalk' as ->. done.
Qed.

Lemma Build_posts_length yaml render w s :
  Build yaml render w = Ok s →
  length (Site_Posts s) = length (file_paths (blog_walk w)).
Proof.
  intros (loaded & Hwalk & Hperm & _)%Build_index.
  apply filepath_Walk_Ok in Hwalk as (new & Hnew & Hl & _). simpl in Hnew.
  rewrite <-Hperm, Hnew. apply (f_equal length) in Hl.
  by rewrite !length_fmap in Hl.
Qed.




(** * The claims *)

(** C1 (as amended).  The index that [Build] makes is newest first, and
    while [Build] finds at most six posts, posts with equal dates stand in
    it in the order the walk found them; three posts found with the dates
    2021-01-01, 2021-01-01, 2020-01-01 make up the index in just that
    order. *)
Theorem C1_date_order_kept_up_to_six_posts yaml render w s loaded p1 p2 p3 :
  Build yaml render w = Ok s →
  filepath_Walk yaml render (blog_walk w) [] = Ok loaded →
  (length loaded ≤ 6)%nat →
  newest_first (Site_Posts s) ∧
  keeps_date_order loaded (Site_Posts s) ∧
  (loaded = [p1; p2; p3] → Date p1 = "2021-01-01"%string →
   Date p2 = "2021-01-01"%string → Date p3 = "2020-01-01"%string →
   Site_Posts s = [p1; p2; p3]).
Proof.
  intros HB Hw Hlen.
  destruct (Build_index _ _ _ _ HB) as (loaded' & Hw' & _ & Hs & Hk).
  rewrite Hw in Hw'. injection Hw' as <-. split_and!.
  - intros i p q Hp Hq. apply (Hs i (S i)); [lia|done..].
  - auto.
  - intros -> H1 H2 H3.
    apply Build_Ok in HB as (loaded' & Hw' & Hsort & _).
    rewrite Hw in Hw'. injection Hw' as <-.
    destruct p1, p2, p3. simpl in H1, H2, H3. subst.
    vm_compute in Hsort. by injection Hsort.
Qed.

Lemma C1_witness :
  ∃ s p1 p2 p3,
    Build yaml_lines render_paragraph world_three = Ok s ∧
    filepath_Walk yaml_lines render_paragraph (blog_walk world_three) []
      = Ok [p1; p2; p3] ∧
    Date <$> [p1; p2; p3] = ["2021-01-01"; "2021-01-01"; "2020-01-01"]%string ∧
    keeps_date_order [p1; p2; p3] (Site_Posts s) ∧
    Site_Posts s = [p1; p2; p3].
Proof.
  eexists _, _, _, _.
  split; [vm_compute; reflexivity|]. split; [vm_compute; reflexivity|].
  split; [reflexivity|].
  match goal with
  | |- keeps_date_order [?p1; ?p2; ?p3] (Site_Posts ?s) ∧ _ =>
      destruct (C1_date_order_kept_up_to_six_posts yaml_lines
                  render_paragraph world_three s [p1; p2; p3] p1 p2 p3)
        as (_ & Hk & He)
  end.
  - vm_compute. reflexivity.
  - vm_compute. reflexivity.
  - simpl. lia.
  - split; [exact Hk|]. apply He; reflexivity.
Defined.

(** C1 (as stated) fails: of thirteen posts, [sort.Sort] exchanges the
    first one, A, with the seventh as it partitions them, past the second
    post, B, of the same day 2021-01-01; B stays before A from then on,
    though the walk found A first. *)
Lemma C1_counterexample :
  ∃ s loaded,
    Build yaml_lines render_paragraph world_thirteen = Ok s ∧
    filepath_Walk yaml_lines render_paragraph (blog_walk world_thirteen) []
      = Ok loaded ∧
    Title <$> filter (λ p, Date p = "2021-01-01"%string) loaded
      = ["A"; "B"]%string ∧
    Title <$> filter (λ p, Date p = "2021-01-01"%string) (Site_Posts s)
      = ["B"; "A"]%string ∧
    ¬ keeps_date_order loaded (Site_Posts s).
Proof.
  eexists _, _.
  split; [vm_compute; reflexivity|]. split; [vm_compute; reflexivity|].
  split_and!; [vm_compute; reflexivity..|].
  intros H. specialize (H "2021-01-01"%string). vm_compute in H.
  discriminate H.
Qed.

(** C2 (as amended).  A file whose header is not accepted (the decoder
    reports an error, or the closing delimiter is missing) makes [Build]
    fail, and the process does not serve.  A header that decodes is
    accepted as it is, with or without a date: the post gets the decoded
    date, which is empty when the header has none. *)
Theorem C2_header_errors_are_fatal yaml render w path content :
  File path (Contents content) ∈ blog_walk w →
  (header_rejected yaml content →
   failed (Build yaml render w) ∧ ¬ serves (main yaml render w)) ∧
  (∀ posts remaining fm,
     front_Unmarshal yaml content
       {| fm_Title := EmptyString; fm_Date := EmptyString |}
       = Ok (remaining, None, fm) →
     ∃ p, walkFn yaml render posts (File path (Contents content))
            = Ok (posts ++ [p]) ∧ Date p = fm_Date fm).
Proof.
  intros Hin. split.
  - intros Hrej.
    assert (failed (Build yaml render w)) as Hf;
      [|by eauto using main_not_serving].
    apply Build_walk_failed.
    eapply filepath_Walk_failed; [exact Hin|].
    unfold header_rejected in Hrej. simpl.
    destruct (front_Unmarshal yaml content _) as [[[remaining [err|]] fm]| |];
      simpl; done.
  - intros posts remaining fm Hfm. eexists. split; [by apply walkFn_file|done].
Qed.

Lemma C2_witness :
  failed (Build yaml_lines render_paragraph world_open_header) ∧
  ¬ serves (main yaml_lines render_paragraph world_open_header).
Proof.
  apply (C2_header_errors_are_fatal yaml_lines render_paragraph
           world_open_header "blog/open.md"
           ("---" +:+ newline +:+ "title: Open" +:+ newline
            +:+ "date: 2020-01-02" +:+ newline +:+ "Text")).
  - unfold world_open_header, world_of, blog_walk.
    rewrite !elem_of_cons. right. right. left. reflexivity.
  - vm_compute. exact I.
Defined.

(** C2 (as stated) fails: a header without a date, and a file without any
    header, are built into posts with an empty date, and the process
    serves. *)
Lemma C2_counterexample :
  ∃ s, Build yaml_lines render_paragraph world_no_date = Ok s ∧
       Title <$> Site_Posts s = ["No date"; EmptyString]%string ∧
       Date <$> Site_Posts s = [EmptyString; EmptyString] ∧
       serves (main yaml_lines render_paragraph world_no_date).
Proof.
  eexists. split; [vm_compute; reflexivity|].
  split_and!; [reflexivity..|]. vm_compute. exact I.
Qed.







(** C5.  In every index that [Build] makes, the earlier post of an adjacent
    pair has a date that is not earlier than the later post's; and a post
    of 2020-09-19 stands before every post of 2020-01-01. *)
Theorem C5_index_is_newest_first yaml render w s :
  Build yaml render w = Ok s →
  newest_first (Site_Posts s) ∧
  (∀ (i j : nat) p q, Site_Posts s !! i = Some p → Site_Posts s !! j = Some q →
     Date p = "2020-09-19"%string → Date q = "2020-01-01"%string → (i < j)%nat).
Proof.
  intros (loaded & _ & _ & Hs & _)%Build_index. split.
  - intros i p q Hp Hq. apply (Hs i (S i)); [lia|done..].
  - intros i j p q Hp Hq Dp Dq.
    destruct (decide (i < j)%nat) as [|Hji]; [done|]. exfalso.
    assert (postUnix p ≤ postUnix q) as Hle by (apply (Hs j i); [lia|done..]).
    unfold postUnix in Hle. rewrite Dp, Dq in Hle. vm_compute in Hle.
    by apply Hle.
Qed.

Lemma C5_witness :
  ∃ s, Build yaml_lines render_paragraph world_two = Ok s ∧
       Date <$> Site_Posts s = ["2020-09-19"; "2020-01-01"]%string ∧
       newest_first (Site_Posts s).
Proof.
  eexists. split; [vm_compute; reflexivity|]. split; [reflexivity|].
  apply (C5_index_is_newest_first yaml_lines render_paragraph world_two).
  vm_compute. reflexivity.
Defined.

(** C6 (as amended).  A post whose date does not parse is in the index all
    the same; it is ordered as a post of 0001-01-01 is, after every post
    whose date is later than that day. *)
Theorem C6_unparsed_date_sorts_as_year_one yaml render w s (i j : nat) p q :
  Build yaml render w = Ok s →
  Site_Posts s !! i = Some p → ¬ dateParses p →
  Site_Posts s !! j = Some q →
  postUnix p = Unix (time_Parse "0001-01-01").1 ∧
  (Unix (time_Parse "0001-01-01").1 < postUnix q → (j < i)%nat).
Proof.
  intros (loaded & _ & _ & Hs & _)%Build_index Hp Hbad Hq.
  assert (Hzero : postUnix p = Unix (time_Parse "0001-01-01").1).
  { unfold postUnix, dateParses, time_Parse in *.
    destruct (parseDate (Date p)); [by destruct Hbad|]. by vm_compute. }
  split; [done|]. rewrite <-Hzero. intros Hlt.
  destruct (decide (j < i)%nat) as [|Hji]; [done|]. exfalso.
  assert (postUnix q ≤ postUnix p) by (apply (Hs i j); [lia|done..]). lia.
Qed.

Lemma C6_witness :
  ∃ s p q, Build yaml_lines render_paragraph world_year_zero = Ok s ∧
           Site_Posts s !! 1%nat = Some p ∧ Date p = "soon"%string ∧
           Site_Posts s !! 0%nat = Some q ∧ Date q = "2020-09-19"%string ∧
           postUnix p = Unix (time_Parse "0001-01-01").1 ∧ (0 < 1)%nat.
Proof.
  eexists _, _, _. split; [vm_compute; reflexivity|].
  match goal with
  | |- Site_Posts ?s !! _ = _ ∧ _ =>
      split; [reflexivity|]; split; [reflexivity|];
      split; [reflexivity|]; split; [reflexivity|];
      match goal with
      | |- postUnix ?p = _ ∧ _ =>
          edestruct (C6_unparsed_date_sorts_as_year_one yaml_lines
                       render_paragraph world_year_zero s 1 0 p)
            as [Hz Hlt]
      end
  end.
  - vm_compute. reflexivity.
  - reflexivity.
  - vm_compute. discriminate.
  - reflexivity.
  - split; [exact Hz|]. apply Hlt. vm_compute. reflexivity.
Defined.

(** C6 (as stated) fails: the post Bad, whose date does not parse, stands
    before the post Ancient of the year 0, whose date parses. *)
Lemma C6_counterexample :
  ∃ s bad ancient,
    Build yaml_lines render_paragraph world_year_zero = Ok s ∧
    Site_Posts s !! 1%nat = Some bad ∧ Site_Posts s !! 2%nat = Some ancient ∧
    Title bad = "Bad"%string ∧ Title ancient = "Ancient"%string ∧
    Date bad = "soon"%string ∧ Date ancient = "0000-06-15"%string ∧
    ¬ dateParses bad ∧ dateParses ancient.
Proof.
  eexists _, _, _. split; [vm_compute; reflexivity|].
  split_and!; try reflexivity. vm_compute. discriminate.
Qed.

(** C7 (as amended).  [Build] makes two feeds, the one that RSS and Atom
    are both written from and the JSON feed, and gives each of them one
    item for each post of the index, in the order of the index.  The link
    of an item of the first, and the ID and the URL of an item of the
    second, is the canonical URL of the post; the items of the first get
    no identifier of their own. *)
Theorem C7_feed_items_follow_the_index yaml render w s :
  Build yaml render w = Ok s →
  length (Feed_Items (rssFeed s)) = length (Site_Posts s) ∧
  length (JFeed_Items (jsonFeed s)) = length (Site_Posts s) ∧
  Forall2 (λ it p, Item_Link_Href it = canonical_URL p ∧
                   Item_Title it = Title p ∧
                   Item_Id it = EmptyString)
          (Feed_Items (rssFeed s)) (Site_Posts s) ∧
  Forall2 (λ it p, JItem_ID it = canonical_URL p ∧
                   JItem_URL it = canonical_URL p ∧
                   JItem_Title it = Title p)
          (JFeed_Items (jsonFeed s)) (Site_Posts s).
Proof.
  intros (loaded & _ & _ & -> & ->)%Build_Ok.
  rewrite !length_fmap. split_and!; [done..| |];
    apply Forall2_fmap_l, Forall_Forall2_diag, Forall_forall; done.
Qed.

Lemma C7_witness :
  ∃ s, Build yaml_lines render_paragraph world_two = Ok s ∧
       Item_Link_Href <$> Feed_Items (rssFeed s) =
         ["https://christine.website/blog/second";
          "https://christine.website/blog/first"]%string ∧
       JItem_ID <$> JFeed_Items (jsonFeed s) =
         ["https://christine.website/blog/second";
          "https://christine.website/blog/first"]%string ∧
       length (Site_Posts s) = 2%nat ∧
       length (Feed_Items (rssFeed s)) = length (Site_Posts s) ∧
       length (JFeed_Items (jsonFeed s)) = length (Site_Posts s).
Proof.
  eexists. split; [vm_compute; reflexivity|].
  split; [reflexivity|]. split; [reflexivity|]. split; [reflexivity|].
  match goal with
  | |- length (Feed_Items (rssFeed ?s)) = _ ∧ _ =>
      destruct (C7_feed_items_follow_the_index yaml_lines render_paragraph
                  world_two s) as (H1 & H2 & _)
  end.
  - vm_compute. reflexivity.
  - split; [exact H1|exact H2].
Defined.

(** C7 (as stated) fails: the identifier of an item of the feed that RSS
    and Atom are written from is empty, not the canonical URL of its
    post. *)
Lemma C7_counterexample :
  ∃ s, Build yaml_lines render_paragraph world_two = Ok s ∧
       Item_Id <$> Feed_Items (rssFeed s) = [EmptyString; EmptyString] ∧
       canonical_URL <$> Site_Posts s =
         ["https://christine.website/blog/second";
          "https://christine.website/blog/first"]%string ∧
       ¬ Forall2 (λ it p, Item_Id it = canonical_URL p)
                 (Feed_Items (rssFeed s)) (Site_Posts s).
Proof.
  eexists. split; [vm_compute; reflexivity|].
  split_and!; [reflexivity..|].
  intros H. apply Forall2_cons_1 in H as [H _]. discriminate H.
Qed.

(** C8.  When the English locale lacks one of the keys that [Build] asks
    it for, the blog title among them, [Build] fails and the process does
    not serve. *)
Theorem C8_missing_locale_key_is_fatal yaml render w l group key :
  locale_file w "locales/en.json" = inr (Loads l) →
  (group, key) ∈ required_keys →
  l !! group ≫= (.!! key) = None →
  failed (Build yaml render w) ∧ ¬ serves (main yaml render w).
Proof.
  intros Hen Hin Hnone.
  assert (failed (Build yaml render w)) as Hf;
    [|by eauto using main_not_serving].
  assert (Hmiss : failed (locale_Value l group key)).
  { unfold locale_Value. by rewrite Hnone. }
  unfold Build. simpl foldl.
  change (filepath_Join "locales" ("en" +:+ ".json"))
    with "locales/en.json"%string.
  rewrite Hen. simpl.
  destruct (locale_file w (filepath_Join "locales" ("tp" +:+ ".json")))
    as [err|[err|tp]]; simpl; [done..|].
  rewrite lookup_insert_ne by done. rewrite lookup_insert_eq. simpl.
  unfold required_keys in Hin. rewrite !elem_of_cons, elem_of_nil in Hin.
  destruct Hin as [Hk|[Hk|[Hk|[Hk|[Hk|[]]]]]]; injection Hk as -> ->;
    repeat lazymatch goal with
    | |- failed (locale_Value l ?g ?k ≫= _) =>
        destruct (locale_Value l g k); simpl in *; [|done..]
    end; done.
Qed.

Lemma C8_witness :
  failed (Build yaml_lines render_paragraph world_no_title) ∧
  ¬ serves (main yaml_lines render_paragraph world_no_title).
Proof.
  apply (C8_missing_locale_key_is_fatal yaml_lines render_paragraph
           world_no_title (delete "blog"%string en_locale) "blog" "title").
  - reflexivity.
  - unfold required_keys. rewrite !elem_of_cons. left. reflexivity.
  - vm_compute. reflexivity.
Defined.

(** C9.  No post of the index has a summary, and so no item of the feed
    that serves RSS and Atom has a description. *)
Theorem C9_summaries_are_empty yaml render w s :
  Build yaml render w = Ok s →
  Forall (λ p, Summary p = EmptyString) (Site_Posts s) ∧
  Forall (λ it, Item_Description it = EmptyString) (Feed_Items (rssFeed s)).
Proof.
  intros HB. pose proof (Build_loaded_posts _ _ _ _ HB) as Hf.
  apply Build_Ok in HB as (loaded & _ & _ & -> & _).
  split.
  - eapply Forall_impl; [exact Hf|]. by intros p [? _].
  - apply Forall_fmap. eapply Forall_impl; [exact Hf|]. by intros p [? _].
Qed.

Lemma C9_witness :
  ∃ s, Build yaml_lines render_paragraph world_two = Ok s ∧
       Summary <$> Site_Posts s = [EmptyString; EmptyString] ∧
       Forall (λ p, Summary p = EmptyString) (Site_Posts s) ∧
       Forall (λ it, Item_Description it = EmptyString)
              (Feed_Items (rssFeed s)).
Proof.
  eexists. split; [vm_compute; reflexivity|]. split; [reflexivity|].
  apply (C9_summaries_are_empty yaml_lines render_paragraph world_two).
  vm_compute. reflexivity.
Defined.

(** C10.  [Build] makes a post of every file that it accepts, with the
    text after the header as its body and the rendering of that text as
    its HTML; the index has one post for each file, and the HTML of every
    post of the index is the rendering of its body. *)
Theorem C10_html_is_the_rendered_body yaml render w s :
  Build yaml render w = Ok s →
  Forall (λ p, BodyHTML p = render (Body p)) (Site_Posts s) ∧
  length (Site_Posts s) = length (file_paths (blog_walk w)) ∧
  (∀ path content remaining fm,
     File path (Contents content) ∈ blog_walk w →
     front_Unmarshal yaml content
       {| fm_Title := EmptyString; fm_Date := EmptyString |}
       = Ok (remaining, None, fm) →
     ∃ p, p ∈ Site_Posts s ∧ Title p = fm_Title fm ∧
          Body p = remaining ∧ BodyHTML p = render remaining).
Proof.
  intros HB. split_and!.
  - eapply Forall_impl; [exact (Build_loaded_posts _ _ _ _ HB)|].
    by intros p [_ ?].
  - by eapply Build_posts_length.
  - intros path content remaining fm Hin Hfm.
    apply Build_posts in HB as [_ HP].
    exists {| Title := fm_Title fm;
              Date := fm_Date fm;
              Link := slug path;
              Body := remaining;
              BodyHTML := render remaining;
              Summary := EmptyString |}.
    split_and!; [|done..]. rewrite <-HP.
    apply list_elem_of_omap. eexists. split; [exact Hin|].
    simpl. unfold no_header. by rewrite Hfm.
Qed.

Lemma C10_witness :
  ∃ s, Build yaml_lines render_paragraph world_two = Ok s ∧
       Body <$> Site_Posts s =
         [newline +:+ "Text of New"; newline +:+ "Text of Old"] ∧
       BodyHTML <$> Site_Posts s =
         ["<p>" +:+ newline +:+ "Text of New</p>";
          "<p>" +:+ newline +:+ "Text of Old</p>"] ∧
       length (Site_Posts s) = 2%nat ∧
       Forall (λ p, BodyHTML p = render_paragraph (Body p)) (Site_Posts s).
Proof.
  eexists. split; [vm_compute; reflexivity|].
  split; [reflexivity|]. split; [reflexivity|]. split; [reflexivity|].
  apply (C10_html_is_the_rendered_body yaml_lines render_paragraph world_two).
  vm_compute. reflexivity.
Defined.

(** * Further properties of the build *)



(** X2.  When the locales are ready, [Build] returns the error of the
    first call of the walk that fails (the walk reports an error for the
    path, or the file does not open or read, or its header does not
    decode), whatever comes after it, and [main] exits with that
    error. *)
Theorem X2_Build_returns_the_first_error_of_the_walk
    yaml render w before e after err :
  locales_ready w →
  blog_walk w = before ++ e :: after →
  Forall (entry_accepted yaml) before →
  walkFn yaml render [] e = Err err →
  Build yaml render w = Err err ∧ main yaml render w = FatalErr err.
Proof.
  intros Hr Hw Hb He.
  assert (Build yaml render w = Err err) as HB.
  { assert (failed (walkFn yaml render [] e)) as Hf by (by rewrite He).
    destruct (Build_ready yaml render w Hr) as (rss & json & t & ->).
    by rewrite Hw, (filepath_Walk_first_failure _ _ _ _ after [] Hb Hf), He. }
  split; [done|]. unfold main. by rewrite HB.
Qed.

Lemma X2_witness :
  Build yaml_lines render_paragraph world_two_failures
    = Err "read blog/b.md: input/output error" ∧
  main yaml_lines render_paragraph world_two_failures
    = FatalErr "read blog/b.md: input/output error".
Proof.
  apply (X2_Build_returns_the_first_error_of_the_walk yaml_lines
           render_paragraph world_two_failures
           [Dir "./blog/"; post_file "blog/a.md" "A" "2020-01-01"]
           (File "blog/b.md" (ReadFails "read blog/b.md: input/output error"))
           [File "blog/c.md" (Contents ("---" +:+ newline +:+ "title: C"))]).
  - apply world_of_ready.
  - reflexivity.
  - repeat constructor. vm_compute. tauto.
  - reflexivity.
Defined.

(** X3.  A locale file that does not open or does not load makes [Build]
    return that error before it looks at any content: the English one,
    and after it the Toki Pona one, which [Build] reads no string
    from. *)
Theorem X3_locale_errors_come_first yaml render w err :
  locale_fails w "en" err ∨
  ((∃ l, locale_file w "locales/en.json" = inr (Loads l)) ∧
   locale_fails w "tp" err) →
  Build yaml render w = Err err ∧ main yaml render w = FatalErr err.
Proof.
  intros H.
  assert (Build yaml render w = Err err) as HB.
  { unfold locale_fails in H. unfold Build. simpl foldl.
    change (filepath_Join "locales" ("en" +:+ ".json"))
      with "locales/en.json"%string in *.
    change (filepath_Join "locales" ("tp" +:+ ".json"))
      with "locales/tp.json"%string in *.
    destruct H as [[->| ->]|[[l ->] [->| ->]]]; done. }
  split; [done|]. unfold main. by rewrite HB.
Qed.

Lemma X3_witness :
  Build yaml_lines render_paragraph world_no_tp
    = Err "open locales/tp.json: no such file or directory" ∧
  main yaml_lines render_paragraph world_no_tp
    = FatalErr "open locales/tp.json: no such file or directory".
Proof.
  apply (X3_locale_errors_come_first yaml_lines render_paragraph world_no_tp).
  right. split; [exists en_locale; reflexivity|]. left. reflexivity.
Defined.

(** X4.  The resume is read after the walk: when everything before it
    went well and the resume does not read, [Build] returns that error,
    and no site. *)
Theorem X4_unreadable_resume_is_fatal yaml render w err :
  locales_ready w →
  Forall (entry_accepted yaml) (blog_walk w) →
  resume_file w = inl err →
  Build yaml render w = Err err ∧ main yaml render w = FatalErr err.
Proof.
  intros Hr Hw Hres.
  assert (Build yaml render w = Err err) as HB.
  { destruct (Build_ready yaml render w Hr) as (rss & json & t & ->).
    rewrite (filepath_Walk_accepted _ _ _ _ Hw). simpl.
    destruct (Posts_sort_ok (omap (post_of yaml render) (blog_walk w)))
      as (built & -> & _).
    simpl. by rewrite Hres. }
  split; [done|]. unfold main. by rewrite HB.
Qed.

Lemma X4_witness :
  Build yaml_lines render_paragraph world_no_resume
    = Err "open ./static/resume/resume.md: no such file or directory" ∧
  main yaml_lines render_paragraph world_no_resume
    = FatalErr "open ./static/resume/resume.md: no such file or directory".
Proof.
  apply (X4_unreadable_resume_is_fatal yaml_lines render_paragraph
           world_no_resume).
  - exists en_locale, en_locale. split_and!; [reflexivity..|].
    intros group key. unfold required_keys.
    rewrite !elem_of_cons, elem_of_nil.
    intros [Hk|[Hk|[Hk|[Hk|[Hk|[]]]]]]; injection Hk as -> ->;
      vm_compute; eauto.
  - repeat constructor; vm_compute; tauto.
  - reflexivity.
Defined.

(** X5.  A file that starts with the delimiter and has no second one
    makes [front.Unmarshal] index past the parts: when it is the first
    call of the walk to fail, [Build] panics, and [main] dies of the
    panic instead of logging an error. *)
Theorem X5_unclosed_header_panics
    yaml render w before path content after :
  locales_ready w →
  blog_walk w = before ++ File path (Contents content) :: after →
  Forall (entry_accepted yaml) before →
  hasPrefix content delim = true →
  cut (dropn 3 content) delim = None →
  Build yaml render w = Panic "index out of range" ∧
  main yaml render w = Crash "index out of range".
Proof.
  intros Hr Hw Hb Hpre Hcut.
  assert (He : walkFn yaml render [] (File path (Contents content))
               = Panic "index out of range").
  { simpl. unfold front_Unmarshal, bytes_SplitN. rewrite Hpre. simpl negb.
    cbv iota. cbn [genSplit]. unfold cut at 1.
    destruct content as [|c content]; [done|].
    fold cut. rewrite Hpre. change (String.length delim) with 3%nat.
    rewrite Hcut. done. }
  assert (Build yaml render w = Panic "index out of range") as HB.
  { assert (failed (walkFn yaml render [] (File path (Contents content))))
      as Hf by (by rewrite He).
    destruct (Build_ready yaml render w Hr) as (rss & json & t & ->).
    by rewrite Hw, (filepath_Walk_first_failure _ _ _ _ after [] Hb Hf), He. }
  split; [done|]. unfold main. by rewrite HB.
Qed.

Lemma X5_witness :
  Build yaml_lines render_paragraph world_open_header
    = Panic "index out of range" ∧
  main yaml_lines render_paragraph world_open_header
    = Crash "index out of range".
Proof.
  apply (X5_unclosed_header_panics yaml_lines render_paragraph
           world_open_header
           [Dir "./blog/"; post_file "blog/fine.md" "Fine" "2020-01-01"]
           "blog/open.md"
           ("---" +:+ newline +:+ "title: Open" +:+ newline
            +:+ "date: 2020-01-02" +:+ newline +:+ "Text") []).
  - apply world_of_ready.
  - reflexivity.
  - repeat constructor. vm_compute. tauto.
  - reflexivity.
  - reflexivity.
Defined.

(** X6.  The index of a site that [Build] returns holds, in some order,
    exactly the posts of the files of the walk: one post for each file,
    none for a directory, with the title and the date of the decoded
    header, the text after the header as body, and the path cut at its
    first dot as link.  Before the sort they stand in the order of the
    walk. *)
Theorem X6_index_holds_the_posts_of_the_files yaml render w s :
  Build yaml render w = Ok s →
  filepath_Walk yaml render (blog_walk w) []
    = Ok (omap (post_of yaml render) (blog_walk w)) ∧
  Permutation (Site_Posts s) (omap (post_of yaml render) (blog_walk w)) ∧
  length (Site_Posts s) = length (file_paths (blog_walk w)).
Proof.
  intros HB. destruct (Build_posts _ _ _ _ HB) as [Hwalk Hperm].
  split_and!; [done..|]. by eapply Build_posts_length.
Qed.

Lemma X6_witness :
  ∃ s, Build yaml_lines render_paragraph world_two = Ok s ∧
       Permutation (Site_Posts s)
         (omap (post_of yaml_lines render_paragraph) (blog_walk world_two)) ∧
       length (Site_Posts s) = 2%nat.
Proof.
  assert (∃ s, Build yaml_lines render_paragraph world_two = Ok s)
    as [s Hs] by (eexists; vm_compute; reflexivity).
  exists s. split; [exact Hs|].
  destruct (X6_index_holds_the_posts_of_the_files yaml_lines
              render_paragraph world_two s Hs) as (_ & Hperm & Hlen).
  split; [exact Hperm|exact Hlen].
Defined.

(** X7.  The two feeds of a site agree item by item: the same title, the
    same URL and the same time.  The time of an item is the parsed date
    of its post, and the zero time when the date does not parse; the
    content of a JSON item is the rendered body of its post. *)
Theorem X7_feeds_agree_item_by_item yaml render w s :
  Build yaml render w = Ok s →
  Forall2 (λ r j, Item_Title r = JItem_Title j ∧
                  Item_Link_Href r = JItem_URL j ∧
                  Item_Created r = JItem_DatePublished j)
          (Feed_Items (rssFeed s)) (JFeed_Items (jsonFeed s)) ∧
  Forall2 (λ j p, JItem_ContentHTML j = render (Body p) ∧
                  (∀ t, parseDate (Date p) = Some t →
                        JItem_DatePublished j = t) ∧
                  (¬ dateParses p → JItem_DatePublished j = Time_zero))
          (JFeed_Items (jsonFeed s)) (Site_Posts s).
Proof.
  intros HB. pose proof (Build_loaded_posts _ _ _ _ HB) as Hf.
  apply Build_Ok in HB as (loaded & _ & _ & -> & ->). split.
  - apply Forall2_fmap, Forall_Forall2_diag, Forall_forall. done.
  - apply Forall2_fmap_l, Forall_Forall2_diag.
    eapply Forall_impl; [exact Hf|]. intros p [_ Hhtml]. simpl.
    split_and!; [done| |].
    + intros t Ht. unfold time_Parse. by rewrite Ht.
    + unfold dateParses, time_Parse.
      destruct (parseDate (Date p)); [by intros []|done].
Qed.

Lemma X7_witness :
  ∃ s, Build yaml_lines render_paragraph world_year_zero = Ok s ∧
       Forall2 (λ r j, Item_Title r = JItem_Title j ∧
                       Item_Link_Href r = JItem_URL j ∧
                       Item_Created r = JItem_DatePublished j)
               (Feed_Items (rssFeed s)) (JFeed_Items (jsonFeed s)).
Proof.
  assert (∃ s, Build yaml_lines render_paragraph world_year_zero = Ok s)
    as [s Hs] by (eexists; vm_compute; reflexivity).
  exists s. split; [exact Hs|].
  apply (X7_feeds_agree_item_by_item yaml_lines render_paragraph
           world_year_zero s Hs).
Defined.



(** X9.  No link of the index has a dot in it, and every link is the
    path of a file of the walk, or that path up to a dot: the link of
    [blog/a.b/post.md] is [blog/a], and nothing of the path after its
    first dot is in the link. *)
Theorem X9_links_have_no_dot yaml render w s p :
  Build yaml render w = Ok s → p ∈ Site_Posts s →
  (∀ stem ext, Link p ≠ stem +:+ "." +:+ ext) ∧
  ∃ path, path ∈ file_paths (blog_walk w) ∧
          (path = Link p ∨ ∃ rest, path = Link p +:+ "." +:+ rest).
Proof.
  intros (loaded & Hwalk & Hperm & _)%Build_index Hp.
  apply filepath_Walk_Ok in Hwalk as (new & -> & Hl & _). simpl in Hperm.
  rewrite <-Hperm in Hp.
  assert (Link p ∈ slug <$> file_paths (blog_walk w)) as Hin.
  { rewrite <-Hl. by apply list_elem_of_fmap_2. }
  apply list_elem_of_fmap in Hin as (path & -> & Hin).
  destruct (slug_shape path) as [Hno Hpre]. split; [done|]. eauto.
Qed.

Lemma X9_witness :
  ∃ s p, Build yaml_lines render_paragraph world_dotted = Ok s ∧
         Site_Posts s = [p] ∧ Link p = "blog/a"%string ∧
         (∀ stem ext, Link p ≠ stem +:+ "." +:+ ext).
Proof.
  assert (∃ s p, Build yaml_lines render_paragraph world_dotted = Ok s ∧
                 Site_Posts s = [p] ∧ Link p = "blog/a"%string)
    as (s & p & Hs & Hp & Hl)
    by (eexists _, _; split; [vm_compute; reflexivity|];
        split; reflexivity).
  exists s, p. split_and!; [exact Hs|exact Hp|exact Hl|].
  apply (X9_links_have_no_dot yaml_lines render_paragraph world_dotted
           s p Hs).
  rewrite Hp. apply list_elem_of_singleton. reflexivity.
Defined.

(** X10.  [Less] and [Swap] index the slice twice: they return for
    indexes from 0 up to [Len] and panic for any other, also when only
    one of the two is out of range. *)
Theorem X10_Less_and_Swap_panic_out_of_range (p : Posts) i j :
  (is_Some (Posts_Less p i j) ↔
   0 ≤ i < Posts_Len p ∧ 0 ≤ j < Posts_Len p) ∧
  (is_Some (Posts_Swap p i j) ↔
   0 ≤ i < Posts_Len p ∧ 0 ≤ j < Posts_Len p).
Proof.
  unfold Posts_Less, Posts_Swap, Posts_Len. rewrite <-!(is_Some_get p).
  destruct (get p i) as [x|], (get p j) as [y|]; simpl;
    rewrite ?is_Some_alt; tauto.
Qed.

(** X11.  [Less] is the strict order that [sort.Sort] needs: no post is
    before itself, and both being before and not being before carry over
    a post in the middle.  Posts whose dates do not parse are not before
    one another. *)
Theorem X11_Less_is_a_strict_weak_order (p : Posts) i j k :
  Posts_Less p i i ≠ Some true ∧
  (Posts_Less p i j = Some true → Posts_Less p j i = Some false) ∧
  (Posts_Less p i j = Some true → Posts_Less p j k = Some true →
   Posts_Less p i k = Some true) ∧
  (Posts_Less p i j = Some false → Posts_Less p j k = Some false →
   Posts_Less p i k = Some false) ∧
  (∀ x y, get p i = Some x → get p j = Some y →
          ¬ dateParses x → ¬ dateParses y → Posts_Less p i j = Some false).
Proof.
  unfold Posts_Less.
  destruct (get p i) as [x|], (get p j) as [y|], (get p k) as [z|]; simpl;
    split_and!; try done; try (intros [= H]); try (intros [= H']);
    try (f_equal; lia).
  all: intros x' y' [= <-] [= <-] Hx Hy; f_equal.
  all: unfold dateParses, time_Parse in *.
  all: destruct (parseDate (Date x)); [by destruct Hx|].
  all: destruct (parseDate (Date y)); [by destruct Hy|]; done.
Qed.

(** X12.  [Swap] exchanges the posts at the two indexes and leaves the
    others where they are: the slice keeps its length and its posts,
    [Less] of the two indexes then answers as it did for them the other
    way round, and a second [Swap] of the same indexes gives the slice
    back. *)
Theorem X12_Swap_exchanges_and_undoes (p p' : Posts) i j :
  Posts_Swap p i j = Some p' →
  get p' i = get p j ∧ get p' j = get p i ∧
  (∀ k, k ≠ i → k ≠ j → get p' k = get p k) ∧
  Posts_Len p' = Posts_Len p ∧ Permutation p p' ∧
  Posts_Less p' i j = Posts_Less p j i ∧
  Posts_Swap p' i j = Some p.
Proof.
  unfold Posts_Swap.
  destruct (get p i) as [x|] eqn:Ei; [|done].
  destruct (get p j) as [y|] eqn:Ej; [|done]. simpl. intros [= <-].
  pose proof (get_exchange p i j x y) as Hget.
  assert (Hi : get (set (set p i y) j x) i = Some y).
  { rewrite Hget by done. repeat case_decide; congruence. }
  assert (Hj : get (set (set p i y) j x) j = Some x).
  { rewrite Hget by done. repeat case_decide; congruence. }
  split_and!.
  - done.
  - done.
  - intros k ? ?. rewrite Hget by done. by repeat case_decide.
  - unfold Posts_Len. by rewrite !length_set.
  - by apply Permutation_exchange.
  - unfold Posts_Less. by rewrite Hi, Hj, Ei, Ej.
  - rewrite Hi, Hj. simpl. f_equal.
    apply list_eq. intros n. rewrite <-!get_nat.
    rewrite (get_exchange _ i j y x) by done.
    repeat case_decide; subst; congruence || by rewrite Hget by done;
      repeat case_decide.
Qed.

Lemma X12_witness :
  ∃ s p', Build yaml_lines render_paragraph world_three = Ok s ∧
          Posts_Swap (Site_Posts s) 0 2 = Some p' ∧
          Posts_Swap p' 0 2 = Some (Site_Posts s).
Proof.
  assert (∃ s p', Build yaml_lines render_paragraph world_three = Ok s ∧
                  Posts_Swap (Site_Posts s) 0 2 = Some p')
    as (s & p' & Hs & Hp)
    by (eexists _, _; split; [vm_compute; reflexivity|reflexivity]).
  exists s, p'. split_and!; [exact Hs|exact Hp|].
  apply (X12_Swap_exchanges_and_undoes (Site_Posts s) p' 0 2 Hp).
Defined.

Lemma X10_witness :
  ∃ s, Build yaml_lines render_paragraph world_two = Ok s ∧
       Posts_Len (Site_Posts s) = 2 ∧
       is_Some (Posts_Less (Site_Posts s) 0 1) ∧
       ¬ is_Some (Posts_Less (Site_Posts s) 0 2) ∧
       ¬ is_Some (Posts_Swap (Site_Posts s) (-1) 0).
Proof.
  assert (∃ s, Build yaml_lines render_paragraph world_two = Ok s ∧
               Posts_Len (Site_Posts s) = 2) as (s & Hs & Hlen)
    by (eexists; split; [vm_compute; reflexivity|reflexivity]).
  exists s. split; [exact Hs|]. split; [exact Hlen|].
  pose proof (X10_Less_and_Swap_panic_out_of_range (Site_Posts s) 0 1)
    as [H01 _].
  pose proof (X10_Less_and_Swap_panic_out_of_range (Site_Posts s) 0 2)
    as [H02 _].
  pose proof (X10_Less_and_Swap_panic_out_of_range (Site_Posts s) (-1) 0)
    as [_ Hm].
  rewrite Hlen in H01, H02, Hm. split_and!.
  - apply H01. lia.
  - intros H. apply H02 in H. lia.
  - intros H. apply Hm in H. lia.
Defined.

Lemma X11_witness :
  ∃ s, Build yaml_lines render_paragraph world_year_zero = Ok s ∧
       Posts_Less (Site_Posts s) 2 1 = Some true ∧
       Posts_Less (Site_Posts s) 1 0 = Some true ∧
       Posts_Less (Site_Posts s) 2 0 = Some true.
Proof.
  assert (∃ s, Build yaml_lines render_paragraph world_year_zero = Ok s ∧
               Posts_Less (Site_Posts s) 2 1 = Some true ∧
               Posts_Less (Site_Posts s) 1 0 = Some true)
    as (s & Hs & H21 & H10)
    by (eexists; split; [vm_compute; reflexivity|];
        split; vm_compute; reflexivity).
  exists s. split_and!; [exact Hs|exact H21|exact H10|].
  apply (X11_Less_is_a_strict_weak_order (Site_Posts s) 2 1 0);
    [exact H21|exact H10].
Defined.

(** X13.  For posts whose dates parse, [Less] is the order of the
    calendar: the post at [i] is before the post at [j] exactly when the
    year, month and day of its date come before those of the other. *)
Theorem X13_Less_is_the_order_of_the_calendar (p : Posts) i j x y a b :
  get p i = Some x → get p j = Some y →
  dateParses x → dateParses y →
  dateFields (Date x) = Some a → dateFields (Date y) = Some b →
  (Posts_Less p i j = Some true ↔ earlier_day a b) ∧
  (Posts_Less p i j = Some false ↔ ¬ earlier_day a b).
Proof.
  intros Hi Hj Hx Hy Ha Hb.
  apply dateParses_fields in Hx
    as (y1 & m1 & d1 & Ha' & Hy1 & Hm1 & Hd1 & Ex).
  apply dateParses_fields in Hy
    as (y2 & m2 & d2 & Hb' & Hy2 & Hm2 & Hd2 & Ey).
  rewrite Ha in Ha'. rewrite Hb in Hb'.
  injection Ha' as ->. injection Hb' as ->.
  unfold Posts_Less. rewrite Hi, Hj. simpl. fold (postUnix x) (postUnix y).
  rewrite Ex, Ey.
  assert (earlier_day (y1, m1, d1) (y2, m2, d2) ↔
          sec (time_Date y1 m1 d1) < sec (time_Date y2 m2 d2)) as Hiff.
  { split; [apply time_Date_mono; done || lia|]. intros Hlt.
    destruct (earlier_day_total (y1, m1, d1) (y2, m2, d2))
      as [?|[[= -> -> ->]|Hgt]]; [done|lia|].
    apply time_Date_mono in Hgt; done || lia. }
  rewrite Hiff.
  destruct (Z.ltb_spec (sec (time_Date y1 m1 d1) + internalToUnix)
                       (sec (time_Date y2 m2 d2) + internalToUnix));
    split; split; try done; intros; try lia; f_equal; lia.
Qed.

Lemma X13_witness :
  ∃ s x y, Build yaml_lines render_paragraph world_two = Ok s ∧
           get (Site_Posts s) 1 = Some x ∧ Date x = "2020-01-01"%string ∧
           get (Site_Posts s) 0 = Some y ∧ Date y = "2020-09-19"%string ∧
           Posts_Less (Site_Posts s) 1 0 = Some true.
Proof.
  assert (∃ s x y, Build yaml_lines render_paragraph world_two = Ok s ∧
                   get (Site_Posts s) 1 = Some x ∧
                   Date x = "2020-01-01"%string ∧
                   get (Site_Posts s) 0 = Some y ∧
                   Date y = "2020-09-19"%string)
    as (s & x & y & Hs & Hx & Dx & Hy & Dy)
    by (eexists _, _, _; split; [vm_compute; reflexivity|];
        split_and!; reflexivity).
  exists s, x, y. split_and!; [done..|].
  apply (X13_Less_is_the_order_of_the_calendar (Site_Posts s) 1 0 x y
           (2020, 1, 1) (2020, 9, 19) Hx Hy).
  - unfold dateParses. rewrite Dx. vm_compute. reflexivity.
  - unfold dateParses. rewrite Dy. vm_compute. reflexivity.
  - rewrite Dx. vm_compute. reflexivity.
  - rewrite Dy. vm_compute. reflexivity.
  - unfold earlier_day. lia.
Defined.

(** X14.  Where a date that parses stands against the dates that do
    not: its post is ordered before theirs ([Less]) exactly when its
    year is 0000, and ties with them exactly when it is 0001-01-01;
    every other date that parses is later. *)
Theorem X14_dates_against_the_zero_time (p : Post) y m d :
  dateParses p → dateFields (Date p) = Some (y, m, d) →
  (postUnix p < Unix Time_zero ↔ y = 0) ∧
  (postUnix p = Unix Time_zero ↔ (y, m, d) = (1, 1, 1)).
Proof.
  intros Hp Hf.
  apply dateParses_fields in Hp as (y' & m' & d' & Hf' & Hy & Hm & Hd & ->).
  rewrite Hf in Hf'. injection Hf' as <- <- <-.
  unfold Unix, Time_zero. change (sec {| sec := 0 |}) with 0.
  assert (sec (time_Date 1 1 1) = 0) as E1 by (vm_compute; reflexivity).
  assert (1 ≤ 1 ≤ daysIn 1 1) as Hd1 by (vm_compute; split; discriminate).
  destruct (earlier_day_total (y, m, d) (1, 1, 1)) as [He|[E|He]].
  - assert (y = 0) as -> by (unfold earlier_day in He; lia).
    apply time_Date_mono in He; [|done || lia..]. rewrite E1 in He.
    split; (split; intros H; first [discriminate H|lia]).
  - injection E as -> -> ->. rewrite E1.
    split; (split; [intros H|intros H]; done || lia).
  - assert (1 ≤ y) as Hy1 by (unfold earlier_day in He; lia).
    apply time_Date_mono in He; [|done || lia..]. rewrite E1 in He.
    split; (split; [intros H|intros H]; try lia).
    injection H as -> -> ->. lia.
Qed.

Lemma X14_witness :
  ∃ p, Date p = "0000-06-15"%string ∧ postUnix p < Unix Time_zero.
Proof.
  exists {| Title := "Ancient"; Link := "blog/ancient";
            Summary := EmptyString; Body := EmptyString;
            BodyHTML := EmptyString; Date := "0000-06-15" |}.
  split; [reflexivity|].
  refine (proj2 (proj1 (X14_dates_against_the_zero_time _ 0 6 15 _ _)) _);
    reflexivity.
Defined.

Lemma cut_closing_delimiter (h body : string) :
  cut (h +:+ newline) "--" = None →
  cut ((h +:+ newline) +:+ "---" +:+ body) "---" = Some (h +:+ newline, body).
Proof.
  induction h as [|c h IH]; [intros _; reflexivity|].
  change (String c h +:+ newline) with (String c (h +:+ newline)).
  change (String c (h +:+ newline) +:+ "---" +:+ body)
    with (String c ((h +:+ newline) +:+ "---" +:+ body)).
  intros H. cbn [cut] in H |- *.
  destruct (hasPrefix (String c (h +:+ newline)) "--") eqn:E1; [done|].
  destruct (cut (h +:+ newline) "--") as [[? ?]|] eqn:E2; [done|].
  rewrite (IH eq_refl).
  assert (hasPrefix (String c ((h +:+ newline) +:+ "---" +:+ body)) "---"
          = false) as ->; [|done].
  cbn [hasPrefix] in E1 |- *.
  destruct (Ascii.eqb "-" c); [|done]. cbn [andb] in E1 |- *.
  destruct h as [|c' h]; [done|].
  change (String c' h +:+ newline) with (String c' (h +:+ newline)) in *.
  change (String c' (h +:+ newline) +:+ "---" +:+ body)
    with (String c' ((h +:+ newline) +:+ "---" +:+ body)).
  cbn [hasPrefix] in E1 |- *.
  destruct (Ascii.eqb "-" c'); [|done]. done.
Qed.

(** X15.  The header ends at the first delimiter after the opening one,
    and the body is all that follows it: when the header has no two
    dashes in a row, the post gets the fields that the decoder reads
    from the header, and a body that may itself hold the delimiter, as
    the rule [---] of a markdown text does. *)
Theorem X15_the_body_may_hold_the_delimiter
    yaml render posts path header body fm :
  cut (header +:+ newline) "--" = None →
  yaml (header +:+ newline) no_header = (fm, None) →
  ∃ p, walkFn yaml render posts
         (File path (Contents
            ("---" +:+ (header +:+ newline) +:+ "---" +:+ body)))
       = Ok (posts ++ [p]) ∧
       Title p = fm_Title fm ∧ Date p = fm_Date fm ∧
       Body p = body ∧ BodyHTML p = render body.
Proof.
  intros Hh Hy.
  exists {| Title := fm_Title fm;
            Date := fm_Date fm;
            Link := slug path;
            Body := body;
            BodyHTML := render body;
            Summary := EmptyString |}.
  split; [|done].
  apply walkFn_file. unfold front_Unmarshal, bytes_SplitN.
  change (hasPrefix ("---" +:+ (header +:+ newline) +:+ "---" +:+ body)
            delim) with true.
  cbn [negb genSplit].
  change (cut ("---" +:+ (header +:+ newline) +:+ "---" +:+ body) delim)
    with (Some (EmptyString, (header +:+ newline) +:+ "---" +:+ body)).
  unfold delim. rewrite (cut_closing_delimiter _ _ Hh). simpl.
  fold no_header. by rewrite Hy.
Qed.

Lemma X15_witness :
  ∃ p, walkFn yaml_lines render_paragraph []
         (File "blog/rule.md"
            (Contents ("---" +:+ (newline +:+ "title: Rule" +:+ newline
                                  +:+ "date: 2020-09-19" +:+ newline)
                       +:+ "---"
                       +:+ newline +:+ "Above" +:+ newline +:+ "---"
                       +:+ newline +:+ "Below")))
       = Ok [p] ∧
       Title p = "Rule"%string ∧ Date p = "2020-09-19"%string ∧
       Body p = newline +:+ "Above" +:+ newline +:+ "---"
                +:+ newline +:+ "Below".
Proof.
  destruct (X15_the_body_may_hold_the_delimiter yaml_lines render_paragraph
              [] "blog/rule.md"
              (newline +:+ "title: Rule" +:+ newline +:+ "date: 2020-09-19")
              (newline +:+ "Above" +:+ newline +:+ "---"
               +:+ newline +:+ "Below")
              {| fm_Title := "Rule"; fm_Date := "2020-09-19" |})
    as (p & Hp & Ht & Hd & Hb & _).
  - vm_compute. reflexivity.
  - vm_compute. reflexivity.
  - exists p. split_and!; [exact Hp|exact Ht|exact Hd|exact Hb].
Defined.
